(** * Lineup optimisation and fatigue evolution

    A shallow embedding of [optimization_model.py] (class [LineupOptimizer])
    and of [update_fatigue_after_stint] from [app.py].

    Numbers: Python floats are read as exact rationals ([Q]); statements
    that compare two computed numbers use [==] ([Qeq]).  Dictionaries are
    [gmap string _]; a pandas frame is the list of its rows.

    Gurobi is outside the repository.  [optimize_lineup] takes the solver as
    an argument, a function from the model it builds to what the code reads
    back ([status], [X], [ObjVal]) or to an exception, and the theorems
    assume of it the contract of module [Gurobi] only. *)

From Stdlib Require Import QArith Qminmax Qround Qpower Qabs Lqa.
From Stdlib Require Import NArith DecimalString DecimalN DecimalPos.
From stdpp Require Import base option list strings gmap fin_maps.

Open Scope Q_scope.

(** ** Float primitives *)

Module Float.

(** [a < b] on floats, as a boolean. *)
Definition ltb (a b : Q) : bool := negb (Qle_bool b a).

(** Python's [max(a, b)] is [b] when [b > a] and [a] otherwise, [min(a, b)]
    is [b] when [b < a] and [a] otherwise: these are [Qmax] and [Qmin]. *)
Definition max (a b : Q) : Q := Qmax a b.
Definition min (a b : Q) : Q := Qmin a b.

(** [x ** a].  The only exponents that reach it are the strategy weights
    [0.0], [1.0] and [2.0] returned by [calculate_strategy_weight]; on an
    integral exponent the float power is the integer power.  Results about
    it are stated for integral exponents. *)
Definition pow (x a : Q) : Q := x ^ Qfloor a.

Definition integral (a : Q) : Prop := inject_Z (Qfloor a) == a.

(** Python's [sum]: a left fold from [0]. *)
Definition sum (l : list Q) : Q := List.fold_left Qplus l 0.

End Float.

(** ** The optimiser's scalar rules ([optimization_model.py]) *)

(** [calculate_strategy_weight], lines 8-15. *)
Definition calculate_strategy_weight (home_score away_score : Q) : Q :=
  let diff := home_score - away_score in
  if Float.ltb diff (-2) then 0
  else if Qle_bool (-2) diff && Qle_bool diff 2 then 1
  else 2.

(** [update_fatigue_multiplier], lines 17-25. *)
Definition update_fatigue_multiplier
    (t_j stint_duration_minutes : Q) (on_court : bool) : Q :=
  let t_new :=
    if on_court then t_j - (2 # 100) * stint_duration_minutes
    else t_j + (1 # 100) * stint_duration_minutes in
  Float.max (3 # 10) (Float.min 1 t_new).

(** The body of the loop at lines 51-54: fatigue 0-100 to [t_j] 0.3-1.0,
    then the clamp. *)
Definition fatigue_to_t_j (fatigue_level : Q) : Q :=
  let t := (fatigue_level / 100) * (7 # 10) + (3 # 10) in
  Float.max (3 # 10) (Float.min 1 t).

(** [_adj], lines 80-85, with the [alpha] it closes over as a parameter. *)
Definition _adj (alpha beta tj : Q) : Q :=
  let tj := Float.max (3 # 10) (Float.min 1 tj) in
  if Qle_bool 0 beta then beta * Float.pow tj alpha
  else beta * Float.pow (1 / Float.max tj (1 # 1000000)) alpha.

(** Lines 76-88: the [score_adjusted] column of one row. *)
Definition score_adjusted_of (alpha value_score t_j : Q) : Q :=
  if Qle_bool alpha 0 then value_score else _adj alpha value_score t_j.

(** ** The stint fatigue update ([app.py], lines 187-230) *)

(** Line 213: 0-100 scale to [t_j], no clamp here. *)
Definition t_old_of (fatigue_level : Q) : Q :=
  (fatigue_level / 100) * (7 # 10) + (3 # 10).

(** Lines 226-227: back to the 0-100 scale, then the clamp. *)
Definition new_fatigue_level_of (t_new : Q) : Q :=
  let new_fatigue_level := ((t_new - (3 # 10)) / (7 # 10)) * 100 in
  Float.max 0 (Float.min 100 new_fatigue_level).

(** Lines 215-223: the energy fraction after the stint. *)
Definition stint_t_new (stint_duration_minutes : Q) (on_court : bool)
    (fatigue_level : Q) : Q :=
  let t_old := t_old_of fatigue_level in
  let t_new :=
    if on_court then t_old - (2 # 100) * stint_duration_minutes
    else t_old + (1 # 100) * stint_duration_minutes in
  Float.max (3 # 10) (Float.min 1 t_new).

(** [update_fatigue_after_stint]; the session's fatigue dictionary is passed
    in and the updated copy is returned. *)
Definition update_fatigue_after_stint
    (fatigue : gmap string Q) (stint_duration_seconds : Q)
    (lineup : list string) : gmap string Q :=
  let stint_duration_minutes := stint_duration_seconds / 60 in
  map_imap (fun player_id fatigue_level =>
    Some (new_fatigue_level_of
            (stint_t_new stint_duration_minutes
               (bool_decide (player_id ∈ lineup)) fatigue_level)))
    fatigue.

(** ** Data model *)

(** One row of the roster frame [team_df]. *)
Record Player := {
  player_id : string;
  country : string;
  disability_score : Q;
  value_score : Q
}.

(** One row of [available_df] once the columns [t_j] and [score_adjusted]
    have been added (lines 71-88). *)
Record Row := {
  row_player : Player;
  t_j : Q;
  score_adjusted : Q
}.

Definition row_id (r : Row) : string := player_id (row_player r).

Record BreakdownEntry := {
  b_player_id : string;
  b_value_score : Q;
  b_t_j : Q;
  b_alpha : Q;
  b_adjusted_score : Q;
  b_disability_score : Q;
  b_is_pre_selected : bool
}.

(** The dictionary [optimize_lineup] returns; the key
    [strategy_weight_alpha] is absent from the empty result. *)
Record OptimizationResult := {
  lineup : list string;
  objective : Q;
  disability_sum : Q;
  strategy_weight_alpha : option Q;
  breakdown : list BreakdownEntry
}.

(** What a call does: it returns a dictionary or raises [RuntimeError]. *)
Inductive Outcome :=
| Returned (r : OptimizationResult)
| RuntimeError.

(** The dictionary of lines 63-68, 94-99 and 192-197. *)
Definition empty_result : OptimizationResult :=
  {| lineup := []; objective := 0; disability_sum := 0;
     strategy_weight_alpha := None; breakdown := [] |}.

(** ** The gurobipy interface used by the code *)

Module Gurobi.

(** A linear expression [sum(c * x[v])]: its terms in order. *)
Definition LinExpr := list (Q * string).

Inductive Sense := EQUAL | LESS_EQUAL.

Record Constr := {
  lhs : LinExpr;
  sense : Sense;
  rhs : Q
}.

(** A model with binary variables only, to be maximised. *)
Record Model := {
  vars : list string;
  obj : LinExpr;
  constrs : list Constr
}.

Inductive Status := OPTIMAL | INFEASIBLE | INF_OR_UNBD | SUBOPTIMAL.

(** What is read back after [model.optimize()]: [model.status], the
    attribute [X] of each variable and [model.ObjVal]. *)
Record Solved := {
  status : Status;
  X : string -> Q;
  ObjVal : Q
}.

(** A solver: [None] when gurobipy raises. *)
Definition Solver := Model -> option Solved.

Fixpoint eval (e : LinExpr) (x : string -> Q) : Q :=
  match e with
  | [] => 0
  | (c, v) :: e' => c * x v + eval e' x
  end.

Definition holds (x : string -> Q) (c : Constr) : Prop :=
  match sense c with
  | EQUAL => eval (lhs c) x == rhs c
  | LESS_EQUAL => eval (lhs c) x <= rhs c
  end.

Definition binary (vs : list string) (x : string -> Q) : Prop :=
  forall v, v ∈ vs -> x v == 0 \/ x v == 1.

Definition feasible (m : Model) (x : string -> Q) : Prop :=
  binary (vars m) x /\ Forall (holds x) (constrs m).

(** The part of Gurobi's documented behaviour the code relies on: with
    status [OPTIMAL] or [SUBOPTIMAL] a feasible point is available and
    [ObjVal] is its objective; with [OPTIMAL] no feasible point does better. *)
Definition contract (optimize : Solver) : Prop :=
  forall m s, optimize m = Some s ->
    (status s = OPTIMAL \/ status s = SUBOPTIMAL ->
       feasible m (X s) /\ ObjVal s == eval (obj m) (X s)) /\
    (status s = OPTIMAL ->
       forall y, feasible m y -> eval (obj m) y <= ObjVal s).


End Gurobi.

(** ** [LineupOptimizer.optimize_lineup] and [_optimize_with_gurobi] *)

(** [df.set_index("player_id").loc[pid]]: the row carrying the id.  A
    scalar comes back only when exactly one row carries it; anything else
    is an exception inside the [try] block. *)
Definition loc (df : list Row) (pid : string) : option Row :=
  match filter (fun r => row_id r = pid) df with
  | [r] => Some r
  | _ => None
  end.

(** [gp.quicksum(df.loc[pid, col] * x[pid] for pid in player_ids)]. *)
Definition quicksum_col (df : list Row) (col : Row -> Q)
    (player_ids : list string) : option Gurobi.LinExpr :=
  mapM (fun pid => r ← loc df pid; Some (col r, pid)) player_ids.

(** Lines 123-155: the model handed to [model.optimize()]. *)
Definition build_model (available_df : list Row) (player_ids : list string)
    (pre_selected_available : list string) (disability_cap : Q)
    (lineup_size : Z) : option Gurobi.Model :=
  objective_terms ← quicksum_col available_df score_adjusted player_ids;
  disability_terms ←
    quicksum_col available_df (fun r => disability_score (row_player r))
      player_ids;
  Some {|
    Gurobi.vars := player_ids;
    Gurobi.obj := objective_terms;
    Gurobi.constrs :=
      {| Gurobi.lhs := (fun pid => (1, pid)) <$> player_ids;
         Gurobi.sense := Gurobi.EQUAL;
         Gurobi.rhs := inject_Z lineup_size |}
      :: {| Gurobi.lhs := disability_terms;
            Gurobi.sense := Gurobi.LESS_EQUAL;
            Gurobi.rhs := disability_cap |}
      :: ((fun pid => {| Gurobi.lhs := [(1, pid)];
                           Gurobi.sense := Gurobi.EQUAL;
                           Gurobi.rhs := 1 |})
            <$> pre_selected_available)
  |}.

(** Lines 171-181: one entry of the breakdown. *)
Definition breakdown_entry (df_idx : list Row)
    (pre_selected_available : list string) (alpha : Q) (pid : string)
    : option BreakdownEntry :=
  player_row ← loc df_idx pid;
  Some {| b_player_id := pid;
          b_value_score := value_score (row_player player_row);
          b_t_j := t_j player_row;
          b_alpha := alpha;
          b_adjusted_score := score_adjusted player_row;
          b_disability_score := disability_score (row_player player_row);
          b_is_pre_selected := bool_decide (pid ∈ pre_selected_available) |}.

(** [_optimize_with_gurobi], lines 111-201.  Any exception inside the [try]
    block, the solver's or a failed lookup, becomes [RuntimeError]. *)
Definition _optimize_with_gurobi (optimize : Gurobi.Solver)
    (available_df df_idx : list Row) (player_ids : list string)
    (pre_selected_available : list string) (disability_cap : Q)
    (lineup_size : Z) (alpha : Q) : Outcome :=
  match build_model available_df player_ids pre_selected_available
          disability_cap lineup_size with
  | None => RuntimeError
  | Some model =>
    match optimize model with
    | None => RuntimeError
    | Some s =>
      match Gurobi.status s with
      | Gurobi.OPTIMAL | Gurobi.SUBOPTIMAL =>
        let best_combo :=
          filter (fun pid => Float.ltb (1 # 2) (Gurobi.X s pid) = true)
            player_ids in
        let best_obj := Gurobi.ObjVal s in
        match mapM (fun pid =>
                      r ← loc available_df pid;
                      Some (disability_score (row_player r))) best_combo,
              mapM (breakdown_entry df_idx pre_selected_available alpha)
                best_combo with
        | Some ds, Some bd =>
          Returned {| lineup := best_combo;
                      objective := best_obj;
                      disability_sum := Float.sum ds;
                      strategy_weight_alpha := Some alpha;
                      breakdown := bd |}
        | _, _ => RuntimeError
        end
      | _ => Returned empty_result
      end
    end
  end.

(** Lines 57-59: the rows whose player is available ([get(x, True)]). *)
Definition available_rows (team_df : list Player)
    (availability : gmap string bool) : list Player :=
  filter (fun p => default true (availability !! player_id p) = true) team_df.

(** Lines 50-54: the dictionary [t_j_dict]. *)
Definition t_j_dict_of (fatigue_levels : gmap string Q) : gmap string Q :=
  fatigue_to_t_j <$> fatigue_levels.

(** Lines 71-88: the columns [t_j] and [score_adjusted] of one row. *)
Definition add_columns (t_j_dict : gmap string Q) (alpha : Q) (p : Player)
    : Row :=
  let tj := default 1 (t_j_dict !! player_id p) in
  {| row_player := p; t_j := tj;
     score_adjusted := score_adjusted_of alpha (value_score p) tj |}.

(** [available_df] as it stands at line 89. *)
Definition scored_rows (team_df : list Player)
    (availability : gmap string bool) (fatigue_levels : gmap string Q)
    (alpha : Q) : list Row :=
  add_columns (t_j_dict_of fatigue_levels) alpha
    <$> available_rows team_df availability.

(** [optimize_lineup], lines 28-108.  [pre_selected] is [None] when the
    caller leaves it out. *)
Definition optimize_lineup (optimize : Gurobi.Solver)
    (team_df : list Player) (availability : gmap string bool)
    (fatigue_levels : gmap string Q) (home_score away_score : Q)
    (pre_selected : option (list string)) (disability_cap : Q)
    (lineup_size : Z) : Outcome :=
  let pre_selected := default [] pre_selected in
  let alpha := calculate_strategy_weight home_score away_score in
  let disability_cap := 8 in
  if (Z.of_nat (length (available_rows team_df availability)) <? lineup_size)%Z
  then Returned empty_result
  else
    let available_df := scored_rows team_df availability fatigue_levels alpha in
    let pre_selected_available :=
      filter (fun p => p ∈ row_id <$> available_df) pre_selected in
    if (length pre_selected_available <? length pre_selected)%nat
    then Returned empty_result
    else
      let df_idx := available_df in
      let player_ids := row_id <$> available_df in
      _optimize_with_gurobi optimize available_df df_idx player_ids
        pre_selected_available disability_cap lineup_size alpha.

(** ** Reference solvers

    Solvers that meet [Gurobi.contract], by exhaustive search over the
    binary points of a model.  They show that the contract can be met, and
    that it leaves the choice among equally good points open. *)

Module Exhaustive.

Import Gurobi.

Definition override (v : string) (b : Q) (x : string -> Q) : string -> Q :=
  fun u => if decide (u = v) then b else x u.

Fixpoint assignments (vs : list string) : list (string -> Q) :=
  match vs with
  | [] => [fun _ => 0]
  | v :: vs' =>
    flat_map (fun x => [override v 0 x; override v 1 x]) (assignments vs')
  end.

Definition holdsb (x : string -> Q) (c : Constr) : bool :=
  match sense c with
  | EQUAL => Qeq_bool (eval (lhs c) x) (rhs c)
  | LESS_EQUAL => Qle_bool (eval (lhs c) x) (rhs c)
  end.

Definition feasibleb (m : Model) (x : string -> Q) : bool :=
  forallb (holdsb x) (constrs m).

Definition closed (vs : list string) (e : LinExpr) : bool :=
  forallb (fun t => bool_decide (t.2 ∈ vs)) e.

(** Every expression of the model mentions declared variables only. *)
Definition well_formed (m : Model) : bool :=
  closed (vars m) (obj m) && forallb (fun c => closed (vars m) (lhs c)) (constrs m).

(** The best of [x :: l] for the expression [e]; on equal values the
    earlier point stays when [later] is [false], the later one wins when it
    is [true]. *)
Definition argmax (later : bool) (e : LinExpr) (x : string -> Q)
    (l : list (string -> Q)) : string -> Q :=
  foldl (fun best y =>
           if (if later then Qle_bool (eval e best) (eval e y)
               else Float.ltb (eval e best) (eval e y))
           then y else best) x l.

Definition candidates (m : Model) : list (string -> Q) :=
  filter (fun x => feasibleb m x = true) (assignments (vars m)).

(** Exact search; raises on a model that is not well formed. *)
Definition solve (later : bool) : Solver := fun m =>
  if well_formed m then
    match candidates m with
    | [] => Some {| status := INFEASIBLE; X := fun _ => 0; ObjVal := 0 |}
    | x :: l =>
      let best := argmax later (obj m) x l in
      Some {| status := OPTIMAL; X := best; ObjVal := eval (obj m) best |}
    end
  else None.

(** Stops at the first feasible point and reports it as [SUBOPTIMAL]. *)
Definition first_feasible : Solver := fun m =>
  if well_formed m then
    match candidates m with
    | [] => Some {| status := INFEASIBLE; X := fun _ => 0; ObjVal := 0 |}
    | x :: _ =>
      Some {| status := SUBOPTIMAL; X := x; ObjVal := eval (obj m) x |}
    end
  else None.

End Exhaustive.

(** ** Vocabulary of the statements *)

(** The clamp of the spec, [clamp(x, lo, hi)]. *)
Definition clamp (x lo hi : Q) : Q :=
  if Qle_bool x lo then lo else if Qle_bool hi x then hi else x.

(** The sum of a column over a list of rows. *)
Definition total (col : Row -> Q) (S : list Row) : Q :=
  foldr (fun r acc => col r + acc) 0 S.

Definition cost (r : Row) : Q := disability_score (row_player r).

(** The rows of the frame whose id is in a list of ids. *)
Definition chosen_rows (rows : list Row) (ids : list string) : list Row :=
  filter (fun r => row_id r ∈ ids) rows.

(** A feasible lineup: [size] rows of the frame with distinct ids, of total
    cost at most [cap], among them every forced id. *)
Record feasible_lineup (rows : list Row) (forced : list string) (cap : Q)
    (size : Z) (S : list Row) : Prop := {
  lineup_distinct : NoDup (row_id <$> S);
  lineup_candidates : forall r, r ∈ S -> r ∈ rows;
  lineup_length : Z.of_nat (length S) = size;
  lineup_cap : total cost S <= cap;
  lineup_forced : forall p, p ∈ forced -> p ∈ row_id <$> S
}.

(** The model that [optimize_lineup] hands to the solver when it gets
    there. *)
Definition lineup_model (team_df : list Player)
    (availability : gmap string bool) (fatigue_levels : gmap string Q)
    (home_score away_score : Q) (pre_selected : option (list string))
    (lineup_size : Z) : option Gurobi.Model :=
  let alpha := calculate_strategy_weight home_score away_score in
  let rows := scored_rows team_df availability fatigue_levels alpha in
  build_model rows (row_id <$> rows)
    (filter (fun p => p ∈ row_id <$> rows) (default [] pre_selected))
    8 lineup_size.

(** The terms [col(r) * x[id(r)]] of a column. *)
Definition terms (col : Row -> Q) (rows : list Row) : Gurobi.LinExpr :=
  (fun r => (col r, row_id r)) <$> rows.

(** The model of lines 123-155 written over the rows of the frame. *)
Definition selection_model (rows : list Row) (forced : list string)
    (cap : Q) (size : Z) : Gurobi.Model :=
  {| Gurobi.vars := row_id <$> rows;
     Gurobi.obj := terms score_adjusted rows;
     Gurobi.constrs :=
       {| Gurobi.lhs := terms (fun _ => 1) rows;
          Gurobi.sense := Gurobi.EQUAL;
          Gurobi.rhs := inject_Z size |}
       :: {| Gurobi.lhs := terms cost rows;
             Gurobi.sense := Gurobi.LESS_EQUAL;
             Gurobi.rhs := cap |}
       :: ((fun pid => {| Gurobi.lhs := [(1, pid)];
                          Gurobi.sense := Gurobi.EQUAL;
                          Gurobi.rhs := 1 |}) <$> forced) |}.

(** Reading a solution: the rows whose variable is above [0.5]. *)
Definition picked (x : string -> Q) (r : Row) : Prop :=
  Float.ltb (1 # 2) (x (row_id r)) = true.

#[global] Instance picked_dec (x : string -> Q) (r : Row) :
  Decision (picked x r) :=
  decide (Float.ltb (1 # 2) (x (row_id r)) = true).

(** The point of the model that selects the ids of [S]. *)
Definition indicator (S : list Row) : string -> Q :=
  fun pid => if bool_decide (pid ∈ row_id <$> S) then 1 else 0.

(** ** A small roster *)

Module Sample.

Definition player (id : string) (d v : Q) : Player :=
  {| player_id := id; country := "CAN"; disability_score := d;
     value_score := v |}.

(** Five players with value scores 3, -2, 5, 1, 0 and cost 2 each. *)
Definition roster : list Player :=
  [player "CAN_1" 2 3; player "CAN_2" 2 (-2); player "CAN_3" 2 5;
   player "CAN_4" 2 1; player "CAN_5" 2 0].


(** Only the first player has played: level 50, the others have no entry. *)
Definition half_tired : gmap string Q := {["CAN_1" := 50]}.

Definition tired_row : Row :=
  add_columns (t_j_dict_of half_tired) 1 (player "CAN_1" 2 3).

Definition fresh_row : Row :=
  add_columns (t_j_dict_of half_tired) 1 (player "CAN_2" 2 (-2)).

(** The scored frame of [roster] on a level scoreboard, everyone fresh. *)
Definition rows : list Row := scored_rows roster ∅ ∅ 1.





Definition result_of (o : Outcome) : OptimizationResult :=
  match o with Returned r => r | RuntimeError => empty_result end.

End Sample.

(** What one entry of the breakdown says about a row of the frame. *)
Definition entry_of_row (forced : list string) (alpha : Q) (row : Row)
    (e : BreakdownEntry) : Prop :=
  b_player_id e = row_id row /\
  b_value_score e = value_score (row_player row) /\
  b_t_j e = t_j row /\
  b_alpha e = alpha /\
  b_adjusted_score e = score_adjusted row /\
  b_disability_score e = cost row /\
  b_is_pre_selected e = bool_decide (row_id row ∈ forced).

(** Two entries for the same player that differ at most in the energy
    fraction shown. *)
Definition same_but_t_j (e1 e2 : BreakdownEntry) : Prop :=
  b_player_id e1 = b_player_id e2 /\
  b_value_score e1 = b_value_score e2 /\
  b_alpha e1 = b_alpha e2 /\
  b_adjusted_score e1 = b_adjusted_score e2 /\
  b_adjusted_score e1 = b_value_score e1 /\
  b_disability_score e1 = b_disability_score e2 /\
  b_is_pre_selected e1 = b_is_pre_selected e2.

(** Reading back one field of a clock text: a decimal numeral, leading
    zeros allowed. *)
Definition parse_02d (s : string) : option Z :=
  (fun u => Z.of_N (N.of_uint u)) <$> NilZero.uint_of_string s.

(** ** The session's stints *)

(** Line 417, once per saved stint: the session's fatigue dictionary is
    replaced by its update.  A stint is its duration in seconds and the
    lineup that played it. *)
Definition fatigue_after_stints (fatigue : gmap string Q)
    (stints : list (Q * list string)) : gmap string Q :=
  foldl (fun f stint => update_fatigue_after_stint f stint.1 stint.2)
    fatigue stints.

(** ** The application shell ([app.py]) *)

Module App.

(** [optimize_lineup] of [app.py], lines 240-280.  [opt] is what
    [load_optimizer()] gave: [None], or the optimiser with the solver it
    runs.  The call passes [lineup_size=4] and leaves [disability_cap] at
    its default; a [RuntimeError] becomes the empty dictionary. *)
Definition optimize_lineup (opt : option Gurobi.Solver)
    (team_df : list Player) (availability : gmap string bool)
    (fatigue_levels : gmap string Q) (home_score away_score : Q)
    (pre_selected : option (list string)) : OptimizationResult :=
  let pre_selected := default [] pre_selected in
  match opt with
  | None => empty_result
  | Some solver =>
    match optimize_lineup solver team_df availability fatigue_levels
            home_score away_score (Some pre_selected) 8 4 with
    | Returned result => result
    | RuntimeError => empty_result
    end
  end.

(** Python's [int(x)] on a float: truncation towards zero. *)
Definition int (x : Q) : Z := Z.quot (Qnum x) (Z.pos (Qden x)).

Definition decimal (n : Z) : string :=
  NilZero.string_of_uint (N.to_uint (Z.to_N n)).

(** The format [{n:02d}]: at least two characters, padded with zeros on
    the left; the sign of a negative number takes one of them. *)
Definition format_02d (n : Z) : string :=
  if (n <? 0)%Z then String.append "-" (decimal (- n))
  else if (n <? 10)%Z then String.append "0" (decimal n)
  else decimal n.

(** [fmt_time], lines 176-180. *)
Definition fmt_time (seconds : option Q) : string :=
  match seconds with
  | None => "00:00"
  | Some seconds =>
    let seconds := Z.max 0 (int seconds) in
    String.append (format_02d (seconds / 60))
      (String.append ":" (format_02d (seconds mod 60)))
  end.

(** [elapsed], lines 183-186; [now] is the reading of [time.time()]. *)
Definition elapsed (now : Q) (ts : option Q) : option Q :=
  match ts with
  | None => None
  | Some ts => Some (now - ts)
  end.

(** One row of [stints_df], with the columns [compute_value_scores]
    reads. *)
Record Stint := {
  minutes : Q;
  h_goals : Q;
  a_goals : Q;
  home1 : string; home2 : string; home3 : string; home4 : string;
  away1 : string; away2 : string; away3 : string; away4 : string
}.

(** One row of [players_df] before the value score is added. *)
Record RatedPlayer := {
  rated_id : string;
  rated_country : string;
  rating : Q
}.

(** One row of [long_df]: player, goal difference, minutes. *)
Record LongRow := {
  long_id : string;
  diff : Q;
  long_minutes : Q
}.

(** Lines 41-56: eight rows per stint of positive length. *)
Definition long_rows (stints_df : list Stint) : list LongRow :=
  flat_map (fun r =>
    if Qle_bool (minutes r) 0 then []
    else
      let h_diff := h_goals r - a_goals r in
      let a_diff := - h_diff in
      ((fun p => {| long_id := p; diff := h_diff; long_minutes := minutes r |})
         <$> [home1 r; home2 r; home3 r; home4 r])
      ++ ((fun p => {| long_id := p; diff := a_diff; long_minutes := minutes r |})
            <$> [away1 r; away2 r; away3 r; away4 r]))
    stints_df.

(** Lines 65-69: the aggregated [value_score] of a player who has rows in
    [long_df]: total difference over total minutes, a zero total of minutes
    replaced by 1. *)
Definition agg_value (long_df : list LongRow) (pid : string) : option Q :=
  match filter (fun row => long_id row = pid) long_df with
  | [] => None
  | rows =>
    let total_diff := Float.sum (diff <$> rows) in
    let total_minutes := Float.sum (long_minutes <$> rows) in
    Some (total_diff / (if Qeq_bool total_minutes 0 then 1 else total_minutes))
  end.

(** [out["value_score"].abs().max()]; on an empty column pandas gives NaN,
    which fails the test [mx > 0] as the [0] returned here does. *)
Definition abs_max (values : list Q) : Q :=
  foldr (fun v acc => Float.max (Qabs v) acc) 0 values.

Definition with_value (p : RatedPlayer) (v : Q) : Player :=
  {| player_id := rated_id p; country := rated_country p;
     disability_score := rating p; value_score := v |}.

(** [compute_value_scores], lines 39-79. *)
Definition compute_value_scores (players_df : list RatedPlayer)
    (stints_df : list Stint) : list Player :=
  let long_df := long_rows stints_df in
  match long_df with
  | [] => (fun p => with_value p 0) <$> players_df
  | _ =>
    let merged :=
      (fun p => (p, default 0 (agg_value long_df (rated_id p)))) <$> players_df in
    let mx := abs_max (snd <$> merged) in
    if Float.ltb 0 mx
    then (fun pv => with_value pv.1 ((pv.2 / mx) * 10)) <$> merged
    else (fun pv => with_value pv.1 pv.2) <$> merged
  end.

(** *** The session and the button handlers *)

(** One row of [st.session_state.live_stints], lines 405-412. *)
Record StintLog := {
  log_game_id : Z;
  log_end_time_game : string;
  log_stint_duration : string;
  log_home_score : Z;
  log_away_score : Z;
  log_lineup : string
}.

(** The keys of [st.session_state] that the handlers below read or write. *)
Record Session := {
  s_selected_game_id : Z;
  s_availability : gmap string bool;
  s_fatigue : gmap string Q;
  s_pre_selected : list string;
  s_lineup : list string;
  s_home_score : Z;
  s_away_score : Z;
  s_game_start : option Q;
  s_stint_start : option Q;
  s_live_stints : list StintLog;
  s_last_opt : option OptimizationResult
}.

(** [reset_all] followed by [ensure_state], lines 116-172: everybody
    available and fresh, nothing selected, no timer. *)
Definition initial (all_ids : list string) (game_id : Z) : Session :=
  {| s_selected_game_id := game_id;
     s_availability := list_to_map ((fun pid => (pid, true)) <$> all_ids);
     s_fatigue := list_to_map ((fun pid => (pid, 100)) <$> all_ids);
     s_pre_selected := [];
     s_lineup := [];
     s_home_score := 0;
     s_away_score := 0;
     s_game_start := None;
     s_stint_start := None;
     s_live_stints := [];
     s_last_opt := None |}.

(** The call common to the three handlers that ask for a lineup (lines
    422-429, 486-493, 523-530), on the session as it stands. *)
Definition suggest (opt : option Gurobi.Solver) (team_df : list Player)
    (s : Session) : OptimizationResult :=
  optimize_lineup opt team_df (s_availability s) (s_fatigue s)
    (inject_Z (s_home_score s)) (inject_Z (s_away_score s))
    (Some (s_pre_selected s)).

(** [last_opt = res], and [lineup = res["lineup"]] when that is not
    empty. *)
Definition take (res : OptimizationResult) (s : Session) : Session :=
  {| s_selected_game_id := s_selected_game_id s;
     s_availability := s_availability s;
     s_fatigue := s_fatigue s;
     s_pre_selected := s_pre_selected s;
     s_lineup := match lineup res with [] => s_lineup s | l => l end;
     s_home_score := s_home_score s;
     s_away_score := s_away_score s;
     s_game_start := s_game_start s;
     s_stint_start := s_stint_start s;
     s_live_stints := s_live_stints s;
     s_last_opt := Some res |}.

(** The handler of "End + Save", lines 396-435.  [now] and [now'] are the
    two readings of the clock (stint duration, game time).  Messages on the
    page are left out. *)
Definition end_and_save (opt : option Gurobi.Solver) (team_df : list Player)
    (now now' : Q) (s : Session) : Session :=
  match elapsed now (s_stint_start s) with
  | None => s
  | Some dur =>
    if (length (s_lineup s) <? 4)%nat
       || (length (remove_dups (s_lineup s)) <? 4)%nat
    then s
    else
      let saved :=
        {| s_selected_game_id := s_selected_game_id s;
           s_availability := s_availability s;
           s_fatigue :=
             update_fatigue_after_stint (s_fatigue s) dur (s_lineup s);
           s_pre_selected := s_pre_selected s;
           s_lineup := s_lineup s;
           s_home_score := s_home_score s;
           s_away_score := s_away_score s;
           s_game_start := s_game_start s;
           s_stint_start := None;
           s_live_stints :=
             s_live_stints s ++
             [{| log_game_id := s_selected_game_id s;
                 log_end_time_game := fmt_time (elapsed now' (s_game_start s));
                 log_stint_duration := fmt_time (Some dur);
                 log_home_score := s_home_score s;
                 log_away_score := s_away_score s;
                 log_lineup := String.concat ", " (s_lineup s) |}];
           s_last_opt := s_last_opt s |} in
      take (suggest opt team_df saved) saved
  end.

(** The handler of "Start Stint", lines 391-393. *)
Definition start_stint (now : Q) (s : Session) : Session :=
  match s_stint_start s with
  | Some _ => s
  | None =>
    {| s_selected_game_id := s_selected_game_id s;
       s_availability := s_availability s;
       s_fatigue := s_fatigue s;
       s_pre_selected := s_pre_selected s;
       s_lineup := s_lineup s;
       s_home_score := s_home_score s;
       s_away_score := s_away_score s;
       s_game_start := s_game_start s;
       s_stint_start := Some now;
       s_live_stints := s_live_stints s;
       s_last_opt := s_last_opt s |}
  end.

(** The handler of "Start Game", lines 481-497. *)
Definition start_game (opt : option Gurobi.Solver) (team_df : list Player)
    (now : Q) (s : Session) : Session :=
  match s_game_start s with
  | Some _ => s
  | None =>
    let started :=
      {| s_selected_game_id := s_selected_game_id s;
         s_availability := s_availability s;
         s_fatigue := s_fatigue s;
         s_pre_selected := s_pre_selected s;
         s_lineup := s_lineup s;
         s_home_score := s_home_score s;
         s_away_score := s_away_score s;
         s_game_start := Some now;
         s_stint_start := s_stint_start s;
         s_live_stints := s_live_stints s;
         s_last_opt := s_last_opt s |} in
    take (suggest opt team_df started) started
  end.

(** The handler of "Optimize", lines 522-533. *)
Definition optimize_click (opt : option Gurobi.Solver)
    (team_df : list Player) (s : Session) : Session :=
  take (suggest opt team_df s) s.

(** The handler of "Clear Selection", lines 535-539. *)
Definition clear_selection (s : Session) : Session :=
  {| s_selected_game_id := s_selected_game_id s;
     s_availability := s_availability s;
     s_fatigue := s_fatigue s;
     s_pre_selected := [];
     s_lineup := [];
     s_home_score := s_home_score s;
     s_away_score := s_away_score s;
     s_game_start := s_game_start s;
     s_stint_start := s_stint_start s;
     s_live_stints := s_live_stints s;
     s_last_opt := None |}.

(** What the widgets write on a run of the script: the availability boxes
    (lines 355-361), line 363, which gives level 100 to a player of the
    team who has none, the two scores (lines 471-473) and the slots of the
    pre-selection (lines 503-513). *)
Definition widgets (team_ids : list string) (boxes : string -> bool)
    (home away : Z) (slots : list string) (s : Session) : Session :=
  {| s_selected_game_id := s_selected_game_id s;
     s_availability :=
       foldl (fun a pid => <[pid := boxes pid]> a)
         (s_availability s) team_ids;
     s_fatigue :=
       foldl (fun f pid => <[pid := default 100 (f !! pid)]> f)
         (s_fatigue s) team_ids;
     s_pre_selected := slots;
     s_lineup := s_lineup s;
     s_home_score := home;
     s_away_score := away;
     s_game_start := s_game_start s;
     s_stint_start := s_stint_start s;
     s_live_stints := s_live_stints s;
     s_last_opt := s_last_opt s |}.

(** What can happen to the session between two states. *)
Inductive Event :=
| Widgets (team_ids : list string) (boxes : string -> bool)
    (home away : Z) (slots : list string)
| StartStint (now : Q)
| EndAndSave (team_df : list Player) (now now' : Q)
| StartGame (team_df : list Player) (now : Q)
| StopGame
| Optimize (team_df : list Player)
| ClearSelection.

Definition step (opt : option Gurobi.Solver) (s : Session) (e : Event)
    : Session :=
  match e with
  | Widgets team_ids boxes home away slots =>
    widgets team_ids boxes home away slots s
  | StartStint now => start_stint now s
  | EndAndSave team_df now now' => end_and_save opt team_df now now' s
  | StartGame team_df now => start_game opt team_df now s
  | StopGame =>
    {| s_selected_game_id := s_selected_game_id s;
       s_availability := s_availability s;
       s_fatigue := s_fatigue s;
       s_pre_selected := s_pre_selected s;
       s_lineup := s_lineup s;
       s_home_score := s_home_score s;
       s_away_score := s_away_score s;
       s_game_start := None;
       s_stint_start := s_stint_start s;
       s_live_stints := s_live_stints s;
       s_last_opt := s_last_opt s |}
  | Optimize team_df => optimize_click opt team_df s
  | ClearSelection => clear_selection s
  end.

(** The teams an event hands to the optimiser. *)
Definition event_team (e : Event) : list Player :=
  match e with
  | EndAndSave team_df _ _ | StartGame team_df _ | Optimize team_df => team_df
  | _ => []
  end.

End App.

(** The state of a session that the handlers keep: the lineup is empty or
    has four distinct ids, every stored fatigue level lies in [0, 100], and
    every player of [all_ids] has one. *)
Definition valid_session (all_ids : list string) (s : App.Session) : Prop :=
  (App.s_lineup s = [] \/
   (length (App.s_lineup s) = 4%nat /\ NoDup (App.s_lineup s))) /\
  (forall pid level,
     App.s_fatigue s !! pid = Some level -> 0 <= level <= 100) /\
  (forall pid, pid ∈ all_ids -> is_Some (App.s_fatigue s !! pid)).

(** ** Further sample data *)

Module Cases.


(** A solver that always raises. *)
Definition failing : Gurobi.Solver := fun _ => None.

(** A short session: the scores are entered, the game and a stint are
    started, the stint is saved after five minutes, and the selection is
    optimised again. *)
Definition evening : list App.Event :=
  [App.Widgets (player_id <$> Sample.roster) (fun _ => true) 3 1 ["CAN_2"];
   App.StartGame Sample.roster 0;
   App.StartStint 10;
   App.EndAndSave Sample.roster 310 320;
   App.Optimize Sample.roster].

End Cases.

(** * Properties *)

(** ** Float primitives *)

Lemma max_cases (a b : Q) :
  (a < b /\ Float.max a b = b) \/ (b <= a /\ Float.max a b = a).
Proof.
  unfold Float.max, Qmax, GenericMinMax.gmax.
  destruct (Qcompare_spec a b); [right | left | right]; split; auto; lra.
Qed.

Lemma min_cases (a b : Q) :
  (b < a /\ Float.min a b = b) \/ (a <= b /\ Float.min a b = a).
Proof.
  unfold Float.min, Qmin, GenericMinMax.gmin.
  destruct (Qcompare_spec a b); [right | right | left]; split; auto; lra.
Qed.

Lemma ltb_lt (a b : Q) : Float.ltb a b = true <-> a < b.
Proof.
  unfold Float.ltb. rewrite negb_true_iff, <- not_true_iff_false, Qle_bool_iff.
  split; [apply Qnot_le_lt | apply Qlt_not_le].
Qed.

Lemma ltb_ge (a b : Q) : Float.ltb a b = false <-> b <= a.
Proof.
  unfold Float.ltb. rewrite negb_false_iff. apply Qle_bool_iff.
Qed.

Lemma Qle_bool_false (a b : Q) : Qle_bool a b = false <-> b < a.
Proof.
  rewrite <- not_true_iff_false, Qle_bool_iff.
  split; [apply Qnot_le_lt | apply Qlt_not_le].
Qed.

(** Case analysis on every [max] and [min] of the goal and of the
    hypotheses. *)
Ltac float_case_on c :=
  let E := fresh "E" in
  destruct c as [[? E] | [? E]]; rewrite E in *; clear E.

Ltac float_cases :=
  repeat match goal with
  | |- context [Float.min ?a ?b] => float_case_on (min_cases a b)
  | |- context [Float.max ?a ?b] => float_case_on (max_cases a b)
  | _ : context [Float.min ?a ?b] |- _ => float_case_on (min_cases a b)
  | _ : context [Float.max ?a ?b] |- _ => float_case_on (max_cases a b)
  end.

(** Division by a literal becomes a product, which [lra] reads. *)
Ltac qnorm := unfold Qdiv in *; cbn [Qinv Qnum Qden] in *.

Lemma clamp_float (x lo hi : Q) :
  lo <= hi -> Float.max lo (Float.min hi x) == clamp x lo hi.
Proof.
  intros Hlh. unfold clamp.
  destruct (Qle_bool x lo) eqn:E1; [apply Qle_bool_iff in E1 |
    apply Qle_bool_false in E1;
    destruct (Qle_bool hi x) eqn:E2;
      [apply Qle_bool_iff in E2 | apply Qle_bool_false in E2]];
  float_cases; lra.
Qed.

Lemma clamp_range (x lo hi : Q) : lo <= hi -> lo <= clamp x lo hi <= hi.
Proof.
  intros Hlh. unfold clamp.
  destruct (Qle_bool x lo) eqn:E1; [lra |].
  apply Qle_bool_false in E1.
  destruct (Qle_bool hi x) eqn:E2; [lra |].
  apply Qle_bool_false in E2. lra.
Qed.

(** ** Fatigue scales *)

Lemma t_old_of_range (level : Q) :
  0 <= level <= 100 -> 3 # 10 <= t_old_of level <= 1.
Proof. intros H. unfold t_old_of. qnorm. lra. Qed.

Lemma fatigue_to_t_j_range (level : Q) : 3 # 10 <= fatigue_to_t_j level <= 1.
Proof. unfold fatigue_to_t_j. cbv zeta. float_cases; lra. Qed.

Lemma new_fatigue_level_of_range (t : Q) : 0 <= new_fatigue_level_of t <= 100.
Proof. unfold new_fatigue_level_of. cbv zeta. float_cases; lra. Qed.

Lemma new_fatigue_level_of_inverse (t : Q) :
  3 # 10 <= t <= 1 ->
  new_fatigue_level_of t == 100 * (t - (3 # 10)) / (7 # 10).
Proof.
  intros H. unfold new_fatigue_level_of. cbv zeta. float_cases; qnorm; lra.
Qed.

Lemma t_old_of_new_level (t : Q) :
  3 # 10 <= t <= 1 -> t_old_of (new_fatigue_level_of t) == t.
Proof.
  intros H. unfold t_old_of, new_fatigue_level_of. cbv zeta.
  float_cases; qnorm; lra.
Qed.

Lemma stint_t_new_range (d : Q) (on_court : bool) (level : Q) :
  3 # 10 <= stint_t_new d on_court level <= 1.
Proof. unfold stint_t_new. cbv zeta. float_cases; lra. Qed.

Lemma update_lookup (fatigue : gmap string Q) (seconds : Q)
    (on_court : list string) (pid : string) :
  update_fatigue_after_stint fatigue seconds on_court !! pid =
  (fun level =>
     new_fatigue_level_of
       (stint_t_new (seconds / 60) (bool_decide (pid ∈ on_court)) level))
    <$> fatigue !! pid.
Proof.
  unfold update_fatigue_after_stint. cbv zeta.
  rewrite map_lookup_imap. destruct (fatigue !! pid); reflexivity.
Qed.

(** C7: on [0, 100] the conversion to the energy fraction,
    [t = 0.3 + 0.7 * (level / 100)], followed by the conversion back,
    [level = 100 * (t - 0.3) / 0.7], gives the level again; [t] lies in
    [0.3, 1.0]; level 0 is [t = 0.3] and level 100 is [t = 1.0].  Both
    conversions to [t] in the code (with and without the clamp) agree. *)
Theorem fatigue_round_trip (level : Q) :
  0 <= level <= 100 ->
  t_old_of level == (3 # 10) + (7 # 10) * (level / 100) /\
  fatigue_to_t_j level == t_old_of level /\
  3 # 10 <= t_old_of level <= 1 /\
  new_fatigue_level_of (t_old_of level)
    == 100 * (t_old_of level - (3 # 10)) / (7 # 10) /\
  new_fatigue_level_of (t_old_of level) == level /\
  new_fatigue_level_of (fatigue_to_t_j level) == level /\
  t_old_of 0 == 3 # 10 /\ t_old_of 100 == 1 /\
  new_fatigue_level_of (3 # 10) == 0 /\ new_fatigue_level_of 1 == 100.
Proof.
  intros H. pose proof (t_old_of_range level H) as Ht.
  assert (Hback : 100 * (t_old_of level - (3 # 10)) / (7 # 10) == level)
    by (unfold t_old_of; qnorm; lra).
  assert (Hsame : fatigue_to_t_j level == t_old_of level).
  { unfold fatigue_to_t_j. cbv zeta. fold (t_old_of level).
    float_cases; lra. }
  repeat split; try apply Ht; try reflexivity.
  - unfold t_old_of. qnorm. lra.
  - exact Hsame.
  - apply new_fatigue_level_of_inverse, Ht.
  - rewrite new_fatigue_level_of_inverse by exact Ht. exact Hback.
  - rewrite new_fatigue_level_of_inverse by apply fatigue_to_t_j_range.
    rewrite <- Hback at 2. qnorm. lra.
Qed.

Lemma fatigue_round_trip_witness :
  0 <= 50 <= 100 /\ new_fatigue_level_of (t_old_of 50) == 50.
Proof.
  assert (H : 0 <= 50 <= 100) by (split; discriminate).
  split; [exact H |]. apply (fatigue_round_trip 50 H).
Defined.

(** ** The stint update *)

Lemma update_fatigue_multiplier_clamp (t d : Q) (on_court : bool) :
  update_fatigue_multiplier t d on_court ==
  (if on_court then clamp (t - (2 # 100) * d) (3 # 10) 1
   else clamp (t + (1 # 100) * d) (3 # 10) 1).
Proof.
  unfold update_fatigue_multiplier. cbv zeta.
  destruct on_court; apply clamp_float; lra.
Qed.

Lemma stint_t_new_clamp (d : Q) (on_court : bool) (level : Q) :
  stint_t_new d on_court level ==
  (if on_court then clamp (t_old_of level - (2 # 100) * d) (3 # 10) 1
   else clamp (t_old_of level + (1 # 100) * d) (3 # 10) 1).
Proof.
  unfold stint_t_new. cbv zeta. destruct on_court; apply clamp_float; lra.
Qed.

(** C6: with [D] the stint's minutes, a player on court ends at
    [clamp(t_old - 0.02 * D, 0.3, 1.0)], a player on the bench at
    [clamp(t_old + 0.01 * D, 0.3, 1.0)]; the stored level lies in [0, 100]
    and its energy fraction in [0.3, 1.0].  This holds for
    [update_fatigue_multiplier] and for every entry of the dictionary that
    [update_fatigue_after_stint] returns. *)
Theorem stint_update_rule (fatigue : gmap string Q) (seconds : Q)
    (on_court : list string) (pid : string) (level : Q) :
  fatigue !! pid = Some level ->
  let D := seconds / 60 in
  (forall t b,
     update_fatigue_multiplier t D b ==
       (if b then clamp (t - (2 # 100) * D) (3 # 10) 1
        else clamp (t + (1 # 100) * D) (3 # 10) 1) /\
     3 # 10 <= update_fatigue_multiplier t D b <= 1) /\
  exists level',
    update_fatigue_after_stint fatigue seconds on_court !! pid = Some level' /\
    0 <= level' <= 100 /\
    t_old_of level' ==
      (if bool_decide (pid ∈ on_court)
       then clamp (t_old_of level - (2 # 100) * D) (3 # 10) 1
       else clamp (t_old_of level + (1 # 100) * D) (3 # 10) 1) /\
    3 # 10 <= t_old_of level' <= 1.
Proof.
  intros Hpid D. split.
  - intros t b. split; [apply update_fatigue_multiplier_clamp |].
    rewrite update_fatigue_multiplier_clamp.
    destruct b; apply clamp_range; lra.
  - subst D. eexists. rewrite update_lookup, Hpid. split; [reflexivity |].
    pose proof (stint_t_new_range (seconds / 60) (bool_decide (pid ∈ on_court)) level) as Hr.
    split; [apply new_fatigue_level_of_range |].
    pose proof (t_old_of_new_level _ Hr) as Hback. split.
    + rewrite Hback. apply stint_t_new_clamp.
    + split; [rewrite Hback; apply Hr | rewrite Hback; apply Hr].
Qed.

Lemma stint_update_rule_witness :
  exists level',
    update_fatigue_after_stint {["CAN_1" := 100]} 300 ["CAN_1"] !! "CAN_1"
      = Some level' /\
    t_old_of level' == 9 # 10.
Proof.
  destruct (stint_update_rule {["CAN_1" := 100]} 300 ["CAN_1"] "CAN_1" 100)
    as [_ (level' & Hl & _ & Ht & _)].
  - apply lookup_singleton_eq.
  - exists level'. split; [exact Hl |]. rewrite Ht. reflexivity.
Defined.

(** C3, as it holds: a stint of duration zero changes nothing, for a
    fraction in [0.3, 1.0] and for every stored level in [0, 100]. *)
Theorem zero_duration_noop (D : Q) :
  D == 0 ->
  (forall t b, 3 # 10 <= t <= 1 -> update_fatigue_multiplier t D b == t) /\
  (forall (fatigue : gmap string Q) (on_court : list string) pid level,
     fatigue !! pid = Some level -> 0 <= level <= 100 ->
     exists level',
       update_fatigue_after_stint fatigue D on_court !! pid = Some level' /\
       level' == level /\ t_old_of level' == t_old_of level).
Proof.
  intros HD. split.
  - intros t b Ht. unfold update_fatigue_multiplier. cbv zeta.
    destruct b; float_cases; lra.
  - intros fatigue on_court pid level Hpid Hl.
    eexists. rewrite update_lookup, Hpid. split; [reflexivity |].
    assert (Hsame : new_fatigue_level_of
              (stint_t_new (D / 60) (bool_decide (pid ∈ on_court)) level)
            == level).
    { unfold new_fatigue_level_of, stint_t_new, t_old_of. cbv zeta.
      destruct (bool_decide (pid ∈ on_court)); float_cases; qnorm; lra. }
    split; [exact Hsame |].
    unfold t_old_of. qnorm. lra.
Qed.

Lemma zero_duration_noop_witness :
  exists level',
    update_fatigue_after_stint {["CAN_1" := 40]} 0 ["CAN_1"] !! "CAN_1"
      = Some level' /\
    level' == 40.
Proof.
  destruct (zero_duration_noop 0 (Qeq_refl 0)) as [_ H].
  destruct (H {["CAN_1" := 40]} ["CAN_1"] "CAN_1" 40) as (level' & Hl & He & _).
  - apply lookup_singleton_eq.
  - split; discriminate.
  - exists level'. split; [exact Hl | exact He].
Defined.

(** C3 fails for a negative duration: after a stint of minus one minute a
    player on court at level 50 is above 50 (at 370/7) and a player on the
    bench is below 50; [update_fatigue_multiplier] moves 0.65 as well. *)
Lemma negative_duration_changes_fatigue :
  -60 <= 0 /\
  (exists level',
     update_fatigue_after_stint {["CAN_1" := 50]} (-60) ["CAN_1"] !! "CAN_1"
       = Some level' /\
     level' == 370 # 7 /\ ~ level' == 50) /\
  (exists level',
     update_fatigue_after_stint {["CAN_1" := 50]} (-60) [] !! "CAN_1"
       = Some level' /\
     level' < 50) /\
  ~ update_fatigue_multiplier (65 # 100) (-1) true == 65 # 100 /\
  ~ update_fatigue_multiplier (65 # 100) (-1) false == 65 # 100.
Proof.
  split; [discriminate |]. rewrite !update_lookup, !lookup_singleton_eq.
  split; [| split].
  - eexists. split; [reflexivity |]. split; vm_compute; [reflexivity | discriminate].
  - eexists. split; [reflexivity |]. vm_compute. reflexivity.
  - split; vm_compute; discriminate.
Qed.

(** ** The strategy weight and the adjusted score *)

Lemma calculate_strategy_weight_values (home away : Q) :
  calculate_strategy_weight home away = 0 \/
  calculate_strategy_weight home away = 1 \/
  calculate_strategy_weight home away = 2.
Proof.
  unfold calculate_strategy_weight. cbv zeta.
  destruct (Float.ltb _ _); [auto |].
  destruct (_ && _); auto.
Qed.

Lemma calculate_strategy_weight_integral (home away : Q) :
  Float.integral (calculate_strategy_weight home away).
Proof.
  destruct (calculate_strategy_weight_values home away) as [-> | [-> | ->]];
    reflexivity.
Qed.

Lemma pow_of_nat_mono (a b : Q) (k : nat) :
  0 <= a -> a <= b -> a ^ Z.of_nat k <= b ^ Z.of_nat k.
Proof.
  intros Ha Hab. induction k as [| k IH].
  - simpl. lra.
  - rewrite Nat2Z.inj_succ, <- Z.add_1_r.
    rewrite !Qpower_plus' by lia.
    change (a ^ 1) with a. change (b ^ 1) with b.
    assert (0 <= a ^ Z.of_nat k) by (apply Qpower_0_le; exact Ha).
    nra.
Qed.

Lemma pow_mono (a b : Q) (n : Z) :
  (0 <= n)%Z -> 0 <= a -> a <= b -> a ^ n <= b ^ n.
Proof.
  intros Hn Ha Hab. rewrite <- (Z2Nat.id n Hn). apply pow_of_nat_mono; assumption.
Qed.

Lemma inv_antitone (a b : Q) : 0 < a -> a <= b -> / b <= / a.
Proof.
  intros Ha Hab. apply Qle_shift_inv_r; [lra |].
  assert (Hinv : a * / a == 1) by (apply Qmult_inv_r; lra).
  assert (0 <= / a) by (apply Qinv_le_0_compat; lra).
  nra.
Qed.

Lemma adj_branches_compat (alpha beta a b t : Q) :
  a == t -> b == t ->
  (if Qle_bool 0 beta then beta * a ^ Qfloor alpha
   else beta * (1 / b) ^ Qfloor alpha) ==
  (if Qle_bool 0 beta then beta * t ^ Qfloor alpha
   else beta * (1 / t) ^ Qfloor alpha).
Proof.
  intros Ha Hb. destruct (Qle_bool 0 beta).
  - rewrite Ha. reflexivity.
  - rewrite Hb. reflexivity.
Qed.

(** On a fraction already in [0.3, 1.0] the two guards of [_adj] do
    nothing. *)
Lemma _adj_in_range (alpha beta t : Q) :
  3 # 10 <= t <= 1 ->
  _adj alpha beta t ==
  if Qle_bool 0 beta then beta * t ^ Qfloor alpha
  else beta * (1 / t) ^ Qfloor alpha.
Proof.
  intros Ht. unfold _adj, Float.pow. cbv zeta.
  float_cases; apply adj_branches_compat; lra.
Qed.

Lemma _adj_monotone (alpha beta t1 t2 : Q) :
  0 < alpha -> 3 # 10 <= t1 -> t1 <= t2 -> t2 <= 1 ->
  _adj alpha beta t1 <= _adj alpha beta t2.
Proof.
  intros Ha H1 H12 H2.
  assert (Hn : (0 <= Qfloor alpha)%Z).
  { change 0%Z with (Qfloor 0). apply Qfloor_resp_le. lra. }
  rewrite !_adj_in_range by lra.
  destruct (Qle_bool 0 beta) eqn:Hb.
  - apply Qle_bool_iff in Hb.
    assert (t1 ^ Qfloor alpha <= t2 ^ Qfloor alpha)
      by (apply pow_mono; [exact Hn | lra | exact H12]).
    nra.
  - apply Qle_bool_false in Hb.
    assert ((1 / t2) ^ Qfloor alpha <= (1 / t1) ^ Qfloor alpha).
    { apply pow_mono; [exact Hn | |].
      - unfold Qdiv. rewrite Qmult_1_l. apply Qinv_le_0_compat. lra.
      - unfold Qdiv. rewrite !Qmult_1_l. apply inv_antitone; lra. }
    nra.
Qed.

(** C2, as it holds: for a positive (integral) strategy weight the adjusted
    score is non-decreasing in the energy fraction on [0.3, 1.0] for every
    base score, negative ones included: a fresher player never scores
    lower. *)
Theorem adjusted_score_monotone (alpha beta t1 t2 : Q) :
  0 < alpha -> Float.integral alpha ->
  3 # 10 <= t1 -> t1 <= t2 -> t2 <= 1 ->
  _adj alpha beta t1 <= _adj alpha beta t2 /\
  score_adjusted_of alpha beta t1 <= score_adjusted_of alpha beta t2.
Proof.
  intros Ha _ H1 H12 H2.
  pose proof (_adj_monotone alpha beta t1 t2 Ha H1 H12 H2) as Hadj.
  split; [exact Hadj |].
  unfold score_adjusted_of.
  destruct (Qle_bool alpha 0) eqn:E; [apply Qle_bool_iff in E; lra | exact Hadj].
Qed.

Lemma adjusted_score_monotone_witness :
  _adj 2 3 (1 # 2) <= _adj 2 3 1 /\ _adj 2 (-3) (1 # 2) <= _adj 2 (-3) 1.
Proof.
  split.
  - apply (adjusted_score_monotone 2 3 (1 # 2) 1);
      [reflexivity | reflexivity | discriminate | discriminate | discriminate].
  - apply (adjusted_score_monotone 2 (-3) (1 # 2) 1);
      [reflexivity | reflexivity | discriminate | discriminate | discriminate].
Defined.

(** C2 fails for a negative base score: with weight 1 and base score -2
    the adjusted score is -4 at [t = 0.5] and -2 at [t = 1.0], so it
    increases with [t]. *)
Lemma negative_score_increases_with_energy :
  0 < 1 /\ -2 < 0 /\ 3 # 10 <= 1 # 2 /\ 1 # 2 <= 1 /\
  _adj 1 (-2) (1 # 2) == -4 /\ _adj 1 (-2) 1 == -2 /\
  ~ _adj 1 (-2) 1 <= _adj 1 (-2) (1 # 2).
Proof.
  repeat split; try discriminate; vm_compute; try reflexivity.
  intros H. apply H. reflexivity.
Qed.

Lemma scored_rows_elem (team_df : list Player)
    (availability : gmap string bool) (fatigue_levels : gmap string Q)
    (alpha : Q) (r : Row) :
  r ∈ scored_rows team_df availability fatigue_levels alpha <->
  exists p, p ∈ team_df /\ default true (availability !! player_id p) = true /\
    r = add_columns (t_j_dict_of fatigue_levels) alpha p.
Proof.
  unfold scored_rows, available_rows. rewrite list_elem_of_fmap.
  split.
  - intros (p & -> & Hp). apply list_elem_of_filter in Hp as [Ha Hp]. eauto.
  - intros (p & Hp & Ha & ->). exists p. split; [reflexivity |].
    apply list_elem_of_filter. auto.
Qed.

Lemma scored_row_t_j (team_df : list Player)
    (availability : gmap string bool) (fatigue_levels : gmap string Q)
    (alpha : Q) (r : Row) :
  r ∈ scored_rows team_df availability fatigue_levels alpha ->
  t_j r = default 1 (fatigue_to_t_j <$> fatigue_levels !! row_id r) /\
  score_adjusted r =
    score_adjusted_of alpha (value_score (row_player r)) (t_j r) /\
  3 # 10 <= t_j r <= 1.
Proof.
  intros (p & _ & _ & ->)%scored_rows_elem.
  unfold add_columns, t_j_dict_of, row_id. cbn.
  rewrite lookup_fmap. split; [reflexivity |]. split; [reflexivity |].
  destruct (fatigue_levels !! player_id p); cbn.
  - apply fatigue_to_t_j_range.
  - lra.
Qed.

(** C4: for every row of the available frame, with [alpha] the strategy
    weight of the scoreboard, [beta] the row's base score and [t] its
    clamped energy fraction in [0.3, 1.0], the adjusted score is [beta]
    when [alpha <= 0], [beta * t^alpha] when [alpha > 0] and [beta >= 0],
    and [beta * (1/t)^alpha] when [alpha > 0] and [beta < 0]. *)
Theorem adjusted_score_formula (team_df : list Player)
    (availability : gmap string bool) (fatigue_levels : gmap string Q)
    (home_score away_score : Q) (r : Row) :
  let alpha := calculate_strategy_weight home_score away_score in
  let beta := value_score (row_player r) in
  let t := t_j r in
  r ∈ scored_rows team_df availability fatigue_levels alpha ->
  t = default 1 (fatigue_to_t_j <$> fatigue_levels !! row_id r) /\
  3 # 10 <= t <= 1 /\
  inject_Z (Qfloor alpha) == alpha /\
  (alpha <= 0 -> score_adjusted r = beta) /\
  (0 < alpha -> 0 <= beta -> score_adjusted r == beta * t ^ Qfloor alpha) /\
  (0 < alpha -> beta < 0 -> score_adjusted r == beta * (1 / t) ^ Qfloor alpha).
Proof.
  intros alpha beta t Hr.
  destruct (scored_row_t_j _ _ _ _ _ Hr) as (Ht & Hs & Hrange).
  fold t in Ht, Hs, Hrange. fold beta in Hs.
  split; [exact Ht |]. split; [exact Hrange |].
  split; [apply calculate_strategy_weight_integral |].
  rewrite Hs. unfold score_adjusted_of.
  pose proof (_adj_in_range alpha beta t Hrange) as Hadj.
  repeat split.
  - intros Ha. apply Qle_bool_iff in Ha. rewrite Ha. reflexivity.
  - intros Ha Hb. apply Qle_bool_iff in Hb. rewrite Hb in Hadj.
    destruct (Qle_bool alpha 0) eqn:E; [apply Qle_bool_iff in E; lra |].
    exact Hadj.
  - intros Ha Hb.
    destruct (Qle_bool alpha 0) eqn:E; [apply Qle_bool_iff in E; lra |].
    destruct (Qle_bool 0 beta) eqn:E'; [apply Qle_bool_iff in E'; lra |].
    exact Hadj.
Qed.

Lemma adjusted_score_formula_witness :
  Sample.tired_row ∈ scored_rows Sample.roster ∅ Sample.half_tired
                       (calculate_strategy_weight 10 10) /\
  (0 < calculate_strategy_weight 10 10 ->
   0 <= value_score (row_player Sample.tired_row) ->
   score_adjusted Sample.tired_row ==
     value_score (row_player Sample.tired_row) *
     t_j Sample.tired_row ^ Qfloor (calculate_strategy_weight 10 10)).
Proof.
  assert (H : Sample.tired_row ∈ scored_rows Sample.roster ∅ Sample.half_tired
                (calculate_strategy_weight 10 10))
    by (vm_compute; apply list_elem_of_here).
  split; [exact H |].
  apply (adjusted_score_formula Sample.roster ∅ Sample.half_tired 10 10
           Sample.tired_row H).
Defined.

(** C10: an available player without an entry in [fatigue_levels] gets the
    energy fraction [t = 1.0]; the adjusted score is then the base score. *)
Theorem missing_fatigue_defaults_to_fresh (team_df : list Player)
    (availability : gmap string bool) (fatigue_levels : gmap string Q)
    (home_score away_score : Q) (r : Row) :
  r ∈ scored_rows team_df availability fatigue_levels
        (calculate_strategy_weight home_score away_score) ->
  fatigue_levels !! row_id r = None ->
  t_j r = 1 /\ score_adjusted r == value_score (row_player r).
Proof.
  intros Hr Hnone.
  destruct (scored_row_t_j _ _ _ _ _ Hr) as (Ht & Hs & _).
  rewrite Hnone in Ht. cbn in Ht. split; [exact Ht |].
  rewrite Hs, Ht. unfold score_adjusted_of.
  destruct (Qle_bool _ 0); [reflexivity |].
  rewrite _adj_in_range by lra.
  destruct (calculate_strategy_weight_values home_score away_score)
    as [-> | [-> | ->]];
    [change (Qfloor 0) with 0%Z | change (Qfloor 1) with 1%Z
    | change (Qfloor 2) with 2%Z];
    destruct (Qle_bool 0 _); cbn; qnorm; lra.
Qed.

Lemma missing_fatigue_defaults_to_fresh_witness :
  Sample.fresh_row ∈ scored_rows Sample.roster ∅ Sample.half_tired
                       (calculate_strategy_weight 10 10) /\
  Sample.half_tired !! row_id Sample.fresh_row = None /\
  t_j Sample.fresh_row = 1.
Proof.
  assert (H : Sample.fresh_row ∈ scored_rows Sample.roster ∅ Sample.half_tired
                (calculate_strategy_weight 10 10))
    by (vm_compute; apply list_elem_of_further, list_elem_of_here).
  assert (Hn : Sample.half_tired !! row_id Sample.fresh_row = None)
    by (vm_compute; reflexivity).
  split; [exact H |]. split; [exact Hn |].
  apply (missing_fatigue_defaults_to_fresh Sample.roster ∅ Sample.half_tired
           10 10 Sample.fresh_row H Hn).
Defined.

(** ** The early returns of [optimize_lineup] *)

Lemma scored_rows_ids (team_df : list Player)
    (availability : gmap string bool) (fatigue_levels : gmap string Q)
    (alpha : Q) :
  row_id <$> scored_rows team_df availability fatigue_levels alpha =
  player_id <$> available_rows team_df availability.
Proof. unfold scored_rows. rewrite <- list_fmap_compose. reflexivity. Qed.

(** C5: with fewer available players than [lineup_size], or with a forced
    id that is not the id of an available player, [optimize_lineup] returns
    the empty result (empty lineup, objective 0, empty breakdown) and does
    not raise, whatever the solver would do. *)
Theorem infeasible_request_returns_empty (optimize : Gurobi.Solver)
    (team_df : list Player) (availability : gmap string bool)
    (fatigue_levels : gmap string Q) (home_score away_score : Q)
    (pre_selected : option (list string)) (disability_cap : Q)
    (lineup_size : Z) :
  (Z.of_nat (length (available_rows team_df availability)) < lineup_size)%Z \/
  (exists p, p ∈ default [] pre_selected /\
             p ∉ player_id <$> available_rows team_df availability) ->
  optimize_lineup optimize team_df availability fatigue_levels
    home_score away_score pre_selected disability_cap lineup_size =
  Returned {| lineup := []; objective := 0; disability_sum := 0;
              strategy_weight_alpha := None; breakdown := [] |}.
Proof.
  intros H. unfold optimize_lineup. cbv zeta.
  destruct (Z.ltb_spec (Z.of_nat (length (available_rows team_df availability)))
              lineup_size) as [Hlt | Hge]; [reflexivity |].
  destruct H as [H | (p & Hp & Hnot)]; [lia |].
  rewrite scored_rows_ids.
  pose proof (length_filter_lt
    (fun p => p ∈ player_id <$> available_rows team_df availability)
    (default [] pre_selected) p Hp Hnot) as Hlen.
  apply Nat.ltb_lt in Hlen. rewrite Hlen. reflexivity.
Qed.

Lemma infeasible_request_returns_empty_witness :
  optimize_lineup (fun _ => None) (take 3 Sample.roster) ∅ ∅ 10 10 None 8 4
    = Returned empty_result /\
  optimize_lineup (fun _ => None) Sample.roster {["CAN_2" := false]} ∅ 10 10
    (Some ["CAN_2"]) 8 4 = Returned empty_result /\
  optimize_lineup (fun _ => None) Sample.roster ∅ ∅ 10 10
    (Some ["CAN_1"; "USA_9"]) 8 4 = Returned empty_result.
Proof.
  split; [| split]; apply infeasible_request_returns_empty.
  - left. vm_compute. reflexivity.
  - right. exists "CAN_2".
    split; refine (bool_decide_unpack _ _); vm_compute; exact I.
  - right. exists "USA_9".
    split; refine (bool_decide_unpack _ _); vm_compute; exact I.
Defined.

(** C9: the argument [disability_cap] has no effect.  Two calls that differ
    in it only give the same outcome, and a call that reaches the solver is
    [_optimize_with_gurobi] run with the cap 8. *)
Theorem disability_cap_is_overwritten (optimize : Gurobi.Solver)
    (team_df : list Player) (availability : gmap string bool)
    (fatigue_levels : gmap string Q) (home_score away_score : Q)
    (pre_selected : option (list string)) (cap1 cap2 : Q) (lineup_size : Z) :
  optimize_lineup optimize team_df availability fatigue_levels
    home_score away_score pre_selected cap1 lineup_size =
  optimize_lineup optimize team_df availability fatigue_levels
    home_score away_score pre_selected cap2 lineup_size /\
  let alpha := calculate_strategy_weight home_score away_score in
  let rows := scored_rows team_df availability fatigue_levels alpha in
  let forced :=
    filter (fun p => p ∈ row_id <$> rows) (default [] pre_selected) in
  (optimize_lineup optimize team_df availability fatigue_levels
     home_score away_score pre_selected cap1 lineup_size =
   Returned empty_result \/
   optimize_lineup optimize team_df availability fatigue_levels
     home_score away_score pre_selected cap1 lineup_size =
   _optimize_with_gurobi optimize rows rows (row_id <$> rows) forced 8
     lineup_size alpha).
Proof.
  split; [reflexivity |]. unfold optimize_lineup. cbv zeta.
  destruct (_ <? _)%Z; [left; reflexivity |].
  destruct (_ <? _)%nat; [left; reflexivity | right; reflexivity].
Qed.

(** ** Lists of rows *)

Lemma total_cons (col : Row -> Q) (r : Row) (S : list Row) :
  total col (r :: S) = col r + total col S.
Proof. reflexivity. Qed.

Lemma total_permutation (col : Row -> Q) (S S' : list Row) :
  S ≡ₚ S' -> total col S == total col S'.
Proof.
  induction 1 as [| r S S' _ IH | r r' S | S S' S'' _ IH1 _ IH2].
  - reflexivity.
  - rewrite !total_cons, IH. reflexivity.
  - rewrite !total_cons. ring.
  - rewrite IH1. exact IH2.
Qed.

Lemma total_ones (S : list Row) :
  total (fun _ => 1) S == inject_Z (Z.of_nat (length S)).
Proof.
  induction S as [| r S IH]; [reflexivity |].
  rewrite total_cons, IH. cbn [length].
  rewrite Nat2Z.inj_succ, <- Z.add_1_l, inject_Z_plus. reflexivity.
Qed.

Lemma sum_foldl (a : Q) (l : list Q) :
  List.fold_left Qplus l a == a + foldr Qplus 0 l.
Proof.
  revert a. induction l as [| q l IH]; intros a; cbn.
  - ring.
  - rewrite IH. ring.
Qed.

Lemma sum_total (col : Row -> Q) (S : list Row) :
  Float.sum (col <$> S) == total col S.
Proof.
  unfold Float.sum. rewrite sum_foldl. unfold total.
  induction S as [| r S IH]; cbn in *; lra.
Qed.

Lemma filter_no_id (rows : list Row) (pid : string) :
  pid ∉ row_id <$> rows -> filter (fun r => row_id r = pid) rows = [].
Proof.
  induction rows as [| a rows IH]; intros Hnot; [reflexivity |].
  rewrite fmap_cons, not_elem_of_cons in Hnot. destruct Hnot as [Hne Hnot].
  rewrite filter_cons_False by (intros E; apply Hne; symmetry; exact E).
  apply IH, Hnot.
Qed.

Lemma loc_unique (rows : list Row) (r : Row) :
  NoDup (row_id <$> rows) -> r ∈ rows -> loc rows (row_id r) = Some r.
Proof.
  unfold loc. induction rows as [| a rows IH]; intros Hnd Hin.
  - inversion Hin.
  - rewrite fmap_cons in Hnd. apply NoDup_cons in Hnd as [Ha Hnd].
    destruct (decide (row_id a = row_id r)) as [E | E].
    + rewrite filter_cons_True by exact E.
      rewrite E in Ha. rewrite (filter_no_id rows _ Ha).
      apply elem_of_cons in Hin as [-> | Hin]; [reflexivity |].
      exfalso. apply Ha. apply list_elem_of_fmap. eauto.
    + rewrite filter_cons_False by exact E.
      apply elem_of_cons in Hin as [-> | Hin]; [congruence |].
      apply IH; assumption.
Qed.

Lemma row_id_inj (rows : list Row) (r r' : Row) :
  NoDup (row_id <$> rows) -> r ∈ rows -> r' ∈ rows ->
  row_id r = row_id r' -> r = r'.
Proof.
  intros Hnd Hr Hr' E.
  pose proof (loc_unique rows r Hnd Hr) as H1.
  pose proof (loc_unique rows r' Hnd Hr') as H2.
  rewrite E in H1. congruence.
Qed.

Lemma mapM_loc (B : Type) (rows S : list Row) (f : string -> Row -> B) :
  NoDup (row_id <$> rows) -> (forall r, r ∈ S -> r ∈ rows) ->
  mapM (fun pid => r ← loc rows pid; Some (f pid r)) (row_id <$> S)
  = Some ((fun r => f (row_id r) r) <$> S).
Proof.
  intros Hnd. induction S as [| a S IH]; intros Hsub; [reflexivity |].
  rewrite fmap_cons. cbn [mapM].
  rewrite (loc_unique rows a Hnd) by (apply Hsub, list_elem_of_here).
  cbn. rewrite IH by (intros r Hr; apply Hsub, list_elem_of_further, Hr).
  reflexivity.
Qed.

Lemma filter_ids (P : string -> Prop) `{!forall p, Decision (P p)}
    (rows : list Row) :
  filter P (row_id <$> rows) = row_id <$> filter (fun r => P (row_id r)) rows.
Proof.
  induction rows as [| a rows IH]; [reflexivity |].
  rewrite fmap_cons, !filter_cons. destruct (decide (P (row_id a))).
  - rewrite fmap_cons, IH. reflexivity.
  - exact IH.
Qed.

Lemma filter_agree (P R : Row -> Prop) `{!forall r, Decision (P r)}
    `{!forall r, Decision (R r)} (rows : list Row) :
  (forall r, r ∈ rows -> P r <-> R r) -> filter P rows = filter R rows.
Proof.
  induction rows as [| a rows IH]; intros Hiff; [reflexivity |].
  rewrite !filter_cons.
  pose proof (Hiff a (list_elem_of_here _ _)) as Ha.
  rewrite IH by (intros r Hr; apply Hiff, list_elem_of_further, Hr).
  destruct (decide (P a)), (decide (R a)); tauto.
Qed.

(** The rows looked up from the ids of a selection are the selection. *)
Lemma chosen_rows_filter (P : Row -> Prop) `{!forall r, Decision (P r)}
    (rows : list Row) :
  NoDup (row_id <$> rows) ->
  chosen_rows rows (row_id <$> filter P rows) = filter P rows.
Proof.
  intros Hnd. unfold chosen_rows. apply filter_agree. intros r Hr. split.
  - intros (r' & E & Hr')%list_elem_of_fmap.
    apply list_elem_of_filter in Hr' as [HP Hr'].
    rewrite (row_id_inj rows r r' Hnd Hr Hr' E). exact HP.
  - intros HP. apply list_elem_of_fmap. exists r. split; [reflexivity |].
    apply list_elem_of_filter. auto.
Qed.

(** A duplicate-free selection from the frame is, up to order, the rows
    looked up from its ids. *)
Lemma chosen_rows_permutation (rows S : list Row) :
  NoDup (row_id <$> rows) -> NoDup (row_id <$> S) ->
  (forall r, r ∈ S -> r ∈ rows) ->
  chosen_rows rows (row_id <$> S) ≡ₚ S.
Proof.
  intros Hnd HS Hsub. apply NoDup_Permutation.
  - apply NoDup_filter, (NoDup_fmap_1 row_id), Hnd.
  - apply (NoDup_fmap_1 row_id), HS.
  - intros r. unfold chosen_rows. rewrite list_elem_of_filter. split.
    + intros [(r' & E & Hr')%list_elem_of_fmap Hr].
      rewrite (row_id_inj rows r r' Hnd Hr (Hsub _ Hr') E). exact Hr'.
    + intros Hr. split; [| apply Hsub, Hr].
      apply list_elem_of_fmap. eauto.
Qed.

(** ** Points of the model and selections of rows *)

Lemma picked_one (x : string -> Q) (r : Row) :
  x (row_id r) == 1 -> picked x r.
Proof. intros H. apply ltb_lt. rewrite H. reflexivity. Qed.

Lemma picked_zero (x : string -> Q) (r : Row) :
  x (row_id r) == 0 -> ~ picked x r.
Proof.
  intros H Hp. apply ltb_lt in Hp. rewrite H in Hp. discriminate Hp.
Qed.

Lemma eval_terms (col : Row -> Q) (rows : list Row) (x : string -> Q) :
  Gurobi.binary (row_id <$> rows) x ->
  Gurobi.eval (terms col rows) x == total col (filter (picked x) rows).
Proof.
  induction rows as [| a rows IH]; intros Hbin; [reflexivity |].
  assert (Htail : Gurobi.binary (row_id <$> rows) x).
  { intros v Hv. apply Hbin. rewrite fmap_cons. apply list_elem_of_further, Hv. }
  specialize (IH Htail). unfold terms in *. rewrite fmap_cons. cbn [Gurobi.eval].
  destruct (Hbin (row_id a)) as [H0 | H1];
    [rewrite fmap_cons; apply list_elem_of_here | |].
  - rewrite filter_cons_False by (apply picked_zero, H0).
    rewrite IH, H0. ring.
  - rewrite filter_cons_True by (apply picked_one, H1).
    rewrite total_cons, IH, H1. ring.
Qed.

Lemma indicator_binary (S : list Row) (vs : list string) :
  Gurobi.binary vs (indicator S).
Proof.
  intros v _. unfold indicator. destruct (bool_decide _); [right | left];
    reflexivity.
Qed.

Lemma picked_indicator (S : list Row) (r : Row) :
  picked (indicator S) r <-> row_id r ∈ row_id <$> S.
Proof.
  unfold picked, indicator. destruct (bool_decide_reflect (row_id r ∈ row_id <$> S)).
  - split; [auto | intros _; reflexivity].
  - split; [discriminate | contradiction].
Qed.

(** Summing a column at the point of a selection sums it over the
    selection. *)
Lemma eval_indicator (col : Row -> Q) (rows S : list Row) :
  NoDup (row_id <$> rows) -> NoDup (row_id <$> S) ->
  (forall r, r ∈ S -> r ∈ rows) ->
  Gurobi.eval (terms col rows) (indicator S) == total col S.
Proof.
  intros Hnd HS Hsub.
  rewrite eval_terms by apply indicator_binary.
  rewrite (filter_agree _ (fun r => row_id r ∈ row_id <$> S))
    by (intros r _; apply picked_indicator).
  apply total_permutation, chosen_rows_permutation; assumption.
Qed.

Lemma build_model_rows (rows : list Row) (forced : list string) (cap : Q)
    (size : Z) :
  NoDup (row_id <$> rows) ->
  build_model rows (row_id <$> rows) forced cap size =
  Some (selection_model rows forced cap size).
Proof.
  intros Hnd. unfold build_model, quicksum_col.
  rewrite !(mapM_loc _ rows rows) by auto. cbn.
  unfold selection_model, terms. rewrite <- list_fmap_compose. reflexivity.
Qed.

Section Selection.

Variables (rows : list Row) (forced : list string) (cap : Q) (size : Z).
Hypothesis rows_distinct : NoDup (row_id <$> rows).
Hypothesis forced_known : forall p, p ∈ forced -> p ∈ row_id <$> rows.

Lemma forced_constraints (x : string -> Q) :
  Forall (Gurobi.holds x)
    ((fun pid => {| Gurobi.lhs := [(1, pid)]; Gurobi.sense := Gurobi.EQUAL;
                    Gurobi.rhs := 1 |}) <$> forced) <->
  forall p, p ∈ forced -> x p == 1.
Proof.
  rewrite Forall_fmap, Forall_forall. unfold Gurobi.holds. cbn.
  split; intros H p Hp; specialize (H p Hp); lra.
Qed.

(** A feasible point of the model selects a feasible lineup, and its
    objective is the lineup's total adjusted score. *)
Lemma point_to_lineup (x : string -> Q) :
  Gurobi.feasible (selection_model rows forced cap size) x ->
  feasible_lineup rows forced cap size (filter (picked x) rows) /\
  Gurobi.eval (terms score_adjusted rows) x
    == total score_adjusted (filter (picked x) rows).
Proof.
  intros [Hbin Hcons]. cbn in Hbin, Hcons.
  apply Forall_cons in Hcons as [Hcount Hcons].
  apply Forall_cons in Hcons as [Hcap Hforced].
  unfold Gurobi.holds in Hcount, Hcap. cbn in Hcount, Hcap.
  rewrite eval_terms in Hcount, Hcap by exact Hbin.
  rewrite forced_constraints in Hforced.
  split; [| apply eval_terms, Hbin]. split.
  - apply NoDup_fmap_2_strong.
    + intros r r' Hr Hr'. apply (row_id_inj rows);
        [exact rows_distinct | |];
        eapply list_elem_of_filter; eassumption.
    + apply NoDup_filter, (NoDup_fmap_1 row_id), rows_distinct.
  - intros r Hr. apply list_elem_of_filter in Hr. apply Hr.
  - rewrite total_ones in Hcount.
    apply (proj1 (inject_Z_injective _ _)), Hcount.
  - exact Hcap.
  - intros p Hp.
    destruct (proj1 (list_elem_of_fmap _ _ _) (forced_known p Hp))
      as (r & -> & Hr).
    apply list_elem_of_fmap. exists r. split; [reflexivity |].
    apply list_elem_of_filter. split; [| exact Hr].
    apply picked_one, Hforced, Hp.
Qed.

(** A feasible lineup is a feasible point of the model, with the same
    objective. *)
Lemma lineup_to_point (S : list Row) :
  feasible_lineup rows forced cap size S ->
  Gurobi.feasible (selection_model rows forced cap size) (indicator S) /\
  Gurobi.eval (terms score_adjusted rows) (indicator S)
    == total score_adjusted S.
Proof.
  intros [HS Hsub Hlen Hcap Hforced].
  split; [| apply eval_indicator; assumption].
  split; [apply indicator_binary |]. cbn.
  repeat apply Forall_cons_2.
  - unfold Gurobi.holds. cbn. rewrite eval_indicator by assumption.
    rewrite total_ones, Hlen. reflexivity.
  - unfold Gurobi.holds. cbn. rewrite eval_indicator by assumption.
    exact Hcap.
  - apply forced_constraints. intros p Hp. unfold indicator.
    rewrite bool_decide_eq_true_2 by (apply Hforced, Hp). reflexivity.
Qed.

End Selection.

(** ** The solver branch *)

Lemma mapM_breakdown (rows S : list Row) (forced : list string) (alpha : Q) :
  NoDup (row_id <$> rows) -> (forall r, r ∈ S -> r ∈ rows) ->
  is_Some (mapM (breakdown_entry rows forced alpha) (row_id <$> S)).
Proof.
  intros Hnd Hsub. unfold breakdown_entry.
  rewrite (mapM_loc _ rows S
    (fun pid player_row =>
       {| b_player_id := pid;
          b_value_score := value_score (row_player player_row);
          b_t_j := t_j player_row;
          b_alpha := alpha;
          b_adjusted_score := score_adjusted player_row;
          b_disability_score := disability_score (row_player player_row);
          b_is_pre_selected := bool_decide (pid ∈ forced) |}) Hnd Hsub).
  eauto.
Qed.

Lemma filter_all (A : Type) (P : A -> Prop) `{!forall a, Decision (P a)}
    (l : list A) :
  ~ (length (filter P l) < length l)%nat -> filter P l = l.
Proof.
  induction l as [| a l IH]; intros Hlen; [reflexivity |].
  rewrite filter_cons in *. destruct (decide (P a)).
  - cbn in Hlen. rewrite IH by lia. reflexivity.
  - pose proof (length_filter P l). cbn in Hlen. lia.
Qed.

Lemma available_ids_distinct (team_df : list Player)
    (availability : gmap string bool) :
  NoDup (player_id <$> team_df) ->
  NoDup (player_id <$> available_rows team_df availability).
Proof.
  intros Hnd. eapply sublist_NoDup; [exact Hnd |].
  apply fmap_sublist, sublist_filter.
Qed.

Section Solver.

Variable optimize : Gurobi.Solver.
Hypothesis optimize_contract : Gurobi.contract optimize.

Variables (rows : list Row) (forced : list string) (cap : Q) (size : Z)
          (alpha : Q).
Hypothesis rows_distinct : NoDup (row_id <$> rows).
Hypothesis forced_known : forall p, p ∈ forced -> p ∈ row_id <$> rows.

(** What [_optimize_with_gurobi] returns when it returns a lineup. *)
Lemma optimize_with_gurobi_sound (r : OptimizationResult) :
  _optimize_with_gurobi optimize rows rows (row_id <$> rows) forced cap size
    alpha = Returned r ->
  lineup r <> [] ->
  exists s,
    optimize (selection_model rows forced cap size) = Some s /\
    (Gurobi.status s = Gurobi.OPTIMAL \/ Gurobi.status s = Gurobi.SUBOPTIMAL) /\
    lineup r = row_id <$> chosen_rows rows (lineup r) /\
    feasible_lineup rows forced cap size (chosen_rows rows (lineup r)) /\
    objective r == total score_adjusted (chosen_rows rows (lineup r)) /\
    disability_sum r == total cost (chosen_rows rows (lineup r)) /\
    (Gurobi.status s = Gurobi.OPTIMAL ->
     forall S, feasible_lineup rows forced cap size S ->
               total score_adjusted S <= objective r).
Proof.
  unfold _optimize_with_gurobi.
  rewrite build_model_rows by exact rows_distinct.
  destruct (optimize (selection_model rows forced cap size)) as [s |] eqn:Hs;
    [| discriminate].
  intros Hret Hne. exists s. split; [reflexivity |].
  assert (Hst : Gurobi.status s = Gurobi.OPTIMAL \/
                Gurobi.status s = Gurobi.SUBOPTIMAL).
  { destruct (Gurobi.status s); auto; inversion Hret; subst r;
      exfalso; apply Hne; reflexivity. }
  split; [exact Hst |].
  destruct (optimize_contract _ _ Hs) as [Hfeasible Hbest].
  destruct (Hfeasible Hst) as [Hpoint Hobj].
  destruct (point_to_lineup rows forced cap size rows_distinct forced_known
              _ Hpoint) as [Hlineup Hscore].
  cbn in Hobj.
  set (S := filter (picked (Gurobi.X s)) rows) in *.
  assert (Hsub : forall r', r' ∈ S -> r' ∈ rows)
    by (intros r' Hr'; apply list_elem_of_filter in Hr'; apply Hr').
  assert (Hbody :
    match mapM (fun pid => r0 ← loc rows pid;
                           Some (disability_score (row_player r0)))
            (row_id <$> S),
          mapM (breakdown_entry rows forced alpha) (row_id <$> S) with
    | Some ds, Some bd =>
      Returned {| lineup := row_id <$> S; objective := Gurobi.ObjVal s;
                  disability_sum := Float.sum ds;
                  strategy_weight_alpha := Some alpha; breakdown := bd |}
    | _, _ => RuntimeError
    end = Returned r).
  { assert (E : filter (fun pid => Float.ltb (1 # 2) (Gurobi.X s pid) = true)
                  (row_id <$> rows) = row_id <$> S)
      by exact (filter_ids _ rows).
    rewrite <- Hret, <- E. destruct Hst as [-> | ->]; reflexivity. }
  clear Hret.
  rewrite (mapM_loc _ rows S (fun _ r0 => disability_score (row_player r0))
             rows_distinct Hsub) in Hbody.
  destruct (mapM_breakdown rows S forced alpha rows_distinct Hsub) as [bd Hbd].
  rewrite Hbd in Hbody. inversion Hbody as [Hr]. cbn.
  assert (Hchosen : chosen_rows rows (row_id <$> S) = S)
    by (apply chosen_rows_filter, rows_distinct).
  rewrite Hchosen.
  split; [reflexivity |]. split; [exact Hlineup |].
  split; [rewrite Hobj; exact Hscore |].
  split; [apply (sum_total cost) |].
  intros Hopt S' HS'.
  destruct (lineup_to_point rows forced cap size rows_distinct S' HS')
    as [Hpoint' Hscore'].
  rewrite <- Hscore'. apply (Hbest Hopt), Hpoint'.
Qed.

(** Past the solver the call does not raise: with unique ids every lookup
    succeeds. *)
Lemma optimize_with_gurobi_returns (s : Gurobi.Solved) :
  optimize (selection_model rows forced cap size) = Some s ->
  exists r,
    _optimize_with_gurobi optimize rows rows (row_id <$> rows) forced cap size
      alpha = Returned r.
Proof.
  intros Hs. unfold _optimize_with_gurobi.
  rewrite build_model_rows by exact rows_distinct. rewrite Hs.
  set (S := filter (picked (Gurobi.X s)) rows).
  assert (E : filter (fun pid => Float.ltb (1 # 2) (Gurobi.X s pid) = true)
                (row_id <$> rows) = row_id <$> S)
    by exact (filter_ids _ rows).
  assert (Hsub : forall r', r' ∈ S -> r' ∈ rows)
    by (intros r' Hr'; apply list_elem_of_filter in Hr'; apply Hr').
  destruct (mapM_breakdown rows S forced alpha rows_distinct Hsub) as [bd Hbd].
  destruct (Gurobi.status s); eauto; cbv zeta;
    rewrite E, Hbd,
      (mapM_loc _ rows S (fun _ r0 => disability_score (row_player r0))
         rows_distinct Hsub);
    eauto.
Qed.

End Solver.

(** ** The reference solvers meet the contract *)

Module ExhaustiveFacts.

Import Gurobi Exhaustive.

Lemma assignments_binary (vs : list string) (x : string -> Q) (v : string) :
  x ∈ assignments vs -> x v = 0 \/ x v = 1.
Proof.
  revert x. induction vs as [| u vs IH]; intros x Hx; cbn in Hx.
  - apply list_elem_of_singleton in Hx as ->. auto.
  - apply list_elem_of_In, in_flat_map in Hx as (x' & Hx' & Hx).
    apply list_elem_of_In in Hx'. specialize (IH x' Hx').
    cbn in Hx.
    destruct Hx as [<- | [<- | []]]; unfold override;
      destruct (decide (v = u)); auto.
Qed.

Lemma assignments_complete (vs : list string) (y : string -> Q) :
  binary vs y ->
  exists x, x ∈ assignments vs /\ forall v, v ∈ vs -> x v == y v.
Proof.
  induction vs as [| u vs IH]; intros Hy.
  - exists (fun _ => 0). split; [apply list_elem_of_here |].
    intros v Hv. inversion Hv.
  - destruct IH as (x & Hx & Hagree).
    { intros v Hv. apply Hy, list_elem_of_further, Hv. }
    assert (Hu : exists b, (b = 0 \/ b = 1) /\ b == y u).
    { destruct (Hy u (list_elem_of_here _ _)) as [H | H];
        [exists 0 | exists 1]; split; auto; symmetry; exact H. }
    destruct Hu as (b & Hb & Hbu).
    exists (override u b x). split.
    + cbn. apply list_elem_of_In, in_flat_map. exists x.
      split; [apply list_elem_of_In, Hx |].
      destruct Hb as [-> | ->]; cbn; auto.
    + intros v Hv. unfold override. destruct (decide (v = u)) as [-> | Hne].
      * exact Hbu.
      * apply elem_of_cons in Hv as [Hv | Hv]; [contradiction |].
        apply Hagree, Hv.
Qed.

Lemma eval_agree (vs : list string) (e : LinExpr) (x y : string -> Q) :
  closed vs e = true -> (forall v, v ∈ vs -> x v == y v) ->
  eval e x == eval e y.
Proof.
  intros Hclosed Hagree. induction e as [| [c v] e IH]; [reflexivity |].
  cbn in Hclosed. apply andb_true_iff in Hclosed as [Hv He].
  apply bool_decide_eq_true in Hv. cbn [eval].
  rewrite (IH He), (Hagree v Hv). reflexivity.
Qed.

Lemma holdsb_holds (x : string -> Q) (c : Constr) :
  holdsb x c = true <-> holds x c.
Proof.
  unfold holdsb, holds. destruct (sense c);
    [apply Qeq_bool_iff | apply Qle_bool_iff].
Qed.

Lemma feasibleb_holds (m : Model) (x : string -> Q) :
  feasibleb m x = true <-> Forall (holds x) (constrs m).
Proof.
  unfold feasibleb. rewrite forallb_forall, Forall_forall.
  split; intros H c Hc.
  - apply holdsb_holds, H, list_elem_of_In, Hc.
  - apply holdsb_holds, H, list_elem_of_In, Hc.
Qed.

Lemma holds_agree (m : Model) (x y : string -> Q) :
  well_formed m = true -> (forall v, v ∈ vars m -> x v == y v) ->
  Forall (holds y) (constrs m) -> Forall (holds x) (constrs m).
Proof.
  intros Hwf Hagree. unfold well_formed in Hwf.
  apply andb_true_iff in Hwf as [_ Hwf]. rewrite forallb_forall in Hwf.
  rewrite !Forall_forall. intros H c Hc. specialize (H c Hc).
  pose proof (Hwf c (proj1 (list_elem_of_In _ _) Hc)) as Hclosed.
  pose proof (eval_agree _ _ x y Hclosed Hagree) as E.
  unfold holds in *. destruct (sense c); rewrite E; exact H.
Qed.

Lemma candidates_feasible (m : Model) (x : string -> Q) :
  x ∈ candidates m -> feasible m x.
Proof.
  unfold candidates. intros [Hf Hx]%list_elem_of_filter. split.
  - intros v _. destruct (assignments_binary _ x v Hx) as [-> | ->];
      [left | right]; reflexivity.
  - apply feasibleb_holds, Hf.
Qed.

(** Every feasible point has the objective of some candidate. *)
Lemma candidates_cover (m : Model) (y : string -> Q) :
  well_formed m = true -> feasible m y ->
  exists x, x ∈ candidates m /\ eval (obj m) x == eval (obj m) y.
Proof.
  intros Hwf [Hbin Hcons].
  destruct (assignments_complete (vars m) y Hbin) as (x & Hx & Hagree).
  exists x. split.
  - apply list_elem_of_filter. split; [| exact Hx].
    apply feasibleb_holds, (holds_agree m x y Hwf Hagree Hcons).
  - apply (eval_agree (vars m)); [| exact Hagree].
    unfold well_formed in Hwf. apply andb_true_iff in Hwf. apply Hwf.
Qed.

Lemma argmax_spec (later : bool) (e : LinExpr) (l : list (string -> Q))
    (x : string -> Q) :
  argmax later e x l ∈ x :: l /\
  forall y, y ∈ x :: l -> eval e y <= eval e (argmax later e x l).
Proof.
  revert x. induction l as [| a l IH]; intros x.
  - cbn. split; [apply list_elem_of_here |].
    intros y Hy. apply list_elem_of_singleton in Hy as ->. lra.
  - unfold argmax in *. cbn [foldl].
    set (x' := if (if later then Qle_bool (eval e x) (eval e a)
                   else Float.ltb (eval e x) (eval e a)) then a else x).
    destruct (IH x') as [Hin Hmax].
    assert (Hx' : (x' = a \/ x' = x) /\ eval e x <= eval e x' /\
                  eval e a <= eval e x').
    { subst x'. destruct later.
      - destruct (Qle_bool _ _) eqn:E.
        + apply Qle_bool_iff in E. split; [auto | lra].
        + apply Qle_bool_false in E. split; [auto | lra].
      - destruct (Float.ltb _ _) eqn:E.
        + apply ltb_lt in E. split; [auto | lra].
        + apply ltb_ge in E. split; [auto | lra]. }
    destruct Hx' as (Hcase & Hx & Ha).
    pose proof (Hmax x' (list_elem_of_here _ _)) as Hbest. split.
    + apply elem_of_cons in Hin as [-> | Hin].
      * destruct Hcase as [-> | ->];
          [apply list_elem_of_further, list_elem_of_here
          | apply list_elem_of_here].
      * apply list_elem_of_further, list_elem_of_further, Hin.
    + intros y Hy. apply elem_of_cons in Hy as [-> | Hy]; [lra |].
      apply elem_of_cons in Hy as [-> | Hy]; [lra |].
      apply Hmax, list_elem_of_further, Hy.
Qed.

Lemma solve_contract (later : bool) : contract (solve later).
Proof.
  intros m s Hs. unfold solve in Hs.
  destruct (well_formed m) eqn:Hwf; [| discriminate].
  destruct (candidates m) as [| x l] eqn:Hc; inversion Hs; subst s; cbn.
  - split; [intros [H | H]; discriminate | discriminate].
  - destruct (argmax_spec later (obj m) l x) as [Hin Hmax].
    rewrite <- Hc in Hin. split.
    + intros _. split; [apply candidates_feasible, Hin | reflexivity].
    + intros _ y Hy.
      destruct (candidates_cover m y Hwf Hy) as (x' & Hx' & <-).
      apply Hmax. rewrite <- Hc. exact Hx'.
Qed.



End ExhaustiveFacts.

(** ** [optimize_lineup] *)

Section Lineup.

Variable optimize : Gurobi.Solver.
Hypothesis optimize_contract : Gurobi.contract optimize.

Variables (team_df : list Player) (availability : gmap string bool)
          (fatigue_levels : gmap string Q) (home_score away_score : Q)
          (pre_selected : option (list string)) (disability_cap : Q)
          (lineup_size : Z).
Hypothesis ids_distinct : NoDup (player_id <$> team_df).

Let alpha := calculate_strategy_weight home_score away_score.
Let rows := scored_rows team_df availability fatigue_levels alpha.
Let forced := default [] pre_selected.

Lemma scored_rows_distinct : NoDup (row_id <$> rows).
Proof.
  unfold rows. rewrite scored_rows_ids.
  apply available_ids_distinct, ids_distinct.
Qed.

(** What [optimize_lineup] returns when it returns a lineup: the solver
    was asked about the model of [rows], [forced] and the cap 8. *)
Lemma optimize_lineup_sound (r : OptimizationResult) :
  optimize_lineup optimize team_df availability fatigue_levels
    home_score away_score pre_selected disability_cap lineup_size
    = Returned r ->
  lineup r <> [] ->
  lineup_model team_df availability fatigue_levels home_score away_score
    pre_selected lineup_size
    = Some (selection_model rows forced 8 lineup_size) /\
  exists s,
    optimize (selection_model rows forced 8 lineup_size) = Some s /\
    (Gurobi.status s = Gurobi.OPTIMAL \/ Gurobi.status s = Gurobi.SUBOPTIMAL) /\
    lineup r = row_id <$> chosen_rows rows (lineup r) /\
    feasible_lineup rows forced 8 lineup_size (chosen_rows rows (lineup r)) /\
    objective r == total score_adjusted (chosen_rows rows (lineup r)) /\
    disability_sum r == total cost (chosen_rows rows (lineup r)) /\
    (Gurobi.status s = Gurobi.OPTIMAL ->
     forall S, feasible_lineup rows forced 8 lineup_size S ->
               total score_adjusted S <= objective r).
Proof.
  unfold optimize_lineup, lineup_model. cbv zeta.
  fold alpha. fold rows. fold forced.
  destruct (_ <? _)%Z;
    [intros Hret Hne; inversion Hret; subst r; exfalso; apply Hne; reflexivity |].
  destruct (Nat.ltb_spec (length (filter (fun p => p ∈ row_id <$> rows) forced))
              (length forced)) as [Hlt | Hge];
    [intros Hret Hne; inversion Hret; subst r; exfalso; apply Hne; reflexivity |].
  rewrite (filter_all _ _ forced) by lia.
  assert (Hknown : forall p, p ∈ forced -> p ∈ row_id <$> rows).
  { intros p Hp. rewrite <- (filter_all _ (fun p => p ∈ row_id <$> rows) forced)
      in Hp by lia.
    apply list_elem_of_filter in Hp. apply Hp. }
  intros Hret Hne. split; [apply build_model_rows, scored_rows_distinct |].
  exact (optimize_with_gurobi_sound optimize optimize_contract rows forced 8
           lineup_size alpha scored_rows_distinct Hknown r Hret Hne).
Qed.

End Lineup.


Lemma sample_ids_distinct : NoDup (player_id <$> Sample.roster).
Proof. refine (bool_decide_unpack _ _). vm_compute. exact I. Qed.







(** * Further properties *)

(** ** The strategy weight *)

(** X1: the strategy weight is 0 exactly when the team trails by more than
    2, 1 exactly when the difference is within 2 either way, 2 exactly when
    it leads by more than 2; it never decreases when the difference grows,
    and two scoreboards with the same difference give the same weight. *)
Theorem strategy_weight_thresholds (home away home' away' : Q) :
  (calculate_strategy_weight home away = 0 <-> home - away < -2) /\
  (calculate_strategy_weight home away = 1 <->
     -2 <= home - away /\ home - away <= 2) /\
  (calculate_strategy_weight home away = 2 <-> 2 < home - away) /\
  (home - away <= home' - away' ->
   calculate_strategy_weight home away
     <= calculate_strategy_weight home' away') /\
  (home - away == home' - away' ->
   calculate_strategy_weight home away
     = calculate_strategy_weight home' away').
Proof.
  unfold calculate_strategy_weight. cbv zeta.
  destruct (Float.ltb (home - away) (-2)) eqn:E1;
    [apply ltb_lt in E1 | apply ltb_ge in E1];
  (destruct (Qle_bool (-2) (home - away)) eqn:E2;
    [apply Qle_bool_iff in E2 | apply Qle_bool_false in E2]);
  (destruct (Qle_bool (home - away) 2) eqn:E3;
    [apply Qle_bool_iff in E3 | apply Qle_bool_false in E3]);
  try lra;
  (destruct (Float.ltb (home' - away') (-2)) eqn:E4;
    [apply ltb_lt in E4 | apply ltb_ge in E4]);
  (destruct (Qle_bool (-2) (home' - away')) eqn:E5;
    [apply Qle_bool_iff in E5 | apply Qle_bool_false in E5]);
  (destruct (Qle_bool (home' - away') 2) eqn:E6;
    [apply Qle_bool_iff in E6 | apply Qle_bool_false in E6]);
  try lra; cbn [andb];
  repeat split; intros; try discriminate; try lra; try reflexivity.
Qed.

(** ** Stints on the public scale *)

(** Case analysis on every [clamp] of the goal. *)
Ltac clamp_cases :=
  unfold clamp;
  repeat match goal with
  | |- context [Qle_bool ?a ?b] =>
    let E := fresh "E" in
    destruct (Qle_bool a b) eqn:E;
      [apply Qle_bool_iff in E | apply Qle_bool_false in E]
  end.

Lemma stint_level_closed (d : Q) (on_court : bool) (level : Q) :
  new_fatigue_level_of (stint_t_new d on_court level) ==
  clamp (if on_court then level - (20 # 7) * d else level + (10 # 7) * d)
    0 100.
Proof.
  unfold new_fatigue_level_of, stint_t_new, t_old_of. cbv zeta.
  destruct on_court; float_cases; clamp_cases; qnorm; lra.
Qed.

(** X2: on the 0-100 scale a stint of [D] minutes moves a player on court
    to [clamp(level - (20/7) * D, 0, 100)] and a player on the bench to
    [clamp(level + (10/7) * D, 0, 100)], whatever the stored level was. *)
Theorem stint_level_closed_form (fatigue : gmap string Q) (seconds : Q)
    (on_court : list string) (pid : string) (level : Q) :
  fatigue !! pid = Some level ->
  exists level',
    update_fatigue_after_stint fatigue seconds on_court !! pid = Some level' /\
    level' ==
      clamp (if bool_decide (pid ∈ on_court)
             then level - (20 # 7) * (seconds / 60)
             else level + (10 # 7) * (seconds / 60)) 0 100.
Proof.
  intros Hpid. eexists. rewrite update_lookup, Hpid.
  split; [reflexivity | apply stint_level_closed].
Qed.

Lemma stint_level_closed_form_witness :
  exists level',
    update_fatigue_after_stint {["CAN_1" := 100]} 420 ["CAN_1"] !! "CAN_1"
      = Some level' /\
    level' == 80.
Proof.
  destruct (stint_level_closed_form {["CAN_1" := 100]} 420 ["CAN_1"] "CAN_1"
              100 (lookup_singleton_eq _ _)) as (level' & Hl & He).
  exists level'. split; [exact Hl |]. rewrite He. reflexivity.
Defined.

(** X3: for a stored level in [0, 100] and a duration that is not
    negative, a player on court never gains and a player on the bench never
    loses; and a longer stint takes at least as much from a player on court
    and gives at least as much to a player on the bench. *)
Theorem stint_direction (fatigue : gmap string Q) (seconds seconds' : Q)
    (on_court : list string) (pid : string) (level : Q) :
  fatigue !! pid = Some level -> 0 <= level <= 100 ->
  0 <= seconds -> seconds <= seconds' ->
  exists l l',
    update_fatigue_after_stint fatigue seconds on_court !! pid = Some l /\
    update_fatigue_after_stint fatigue seconds' on_court !! pid = Some l' /\
    (pid ∈ on_court -> l' <= l /\ l <= level) /\
    (pid ∉ on_court -> level <= l /\ l <= l').
Proof.
  intros Hpid Hlevel Hs Hs'. eexists. eexists.
  rewrite !update_lookup, Hpid. split; [reflexivity |].
  split; [reflexivity |].
  rewrite !stint_level_closed.
  split; intros Hin.
  - rewrite bool_decide_eq_true_2 by exact Hin. clamp_cases; qnorm; lra.
  - rewrite bool_decide_eq_false_2 by exact Hin. clamp_cases; qnorm; lra.
Qed.

Lemma stint_direction_witness :
  exists l l',
    update_fatigue_after_stint {["CAN_1" := 60]} 60 ["CAN_1"] !! "CAN_1"
      = Some l /\
    update_fatigue_after_stint {["CAN_1" := 60]} 120 ["CAN_1"] !! "CAN_1"
      = Some l' /\
    l' <= l /\ l <= 60.
Proof.
  destruct (stint_direction {["CAN_1" := 60]} 60 120 ["CAN_1"] "CAN_1" 60)
    as (l & l' & Hl & Hl' & Hin & _).
  - apply lookup_singleton_eq.
  - split; discriminate.
  - discriminate.
  - discriminate.
  - exists l, l'. split; [exact Hl |]. split; [exact Hl' |].
    apply Hin. apply list_elem_of_here.
Defined.

(** X4: two stints in a row on the same side of the line count as one
    stint of the summed duration: for a stored level in [0, 100], durations
    that are not negative and the same lineup, updating twice gives the
    level of updating once with [seconds1 + seconds2]. *)
Theorem stints_add_up (fatigue : gmap string Q) (seconds1 seconds2 : Q)
    (on_court : list string) (pid : string) (level : Q) :
  fatigue !! pid = Some level -> 0 <= level <= 100 ->
  0 <= seconds1 -> 0 <= seconds2 ->
  exists twice once,
    update_fatigue_after_stint
      (update_fatigue_after_stint fatigue seconds1 on_court)
      seconds2 on_court !! pid = Some twice /\
    update_fatigue_after_stint fatigue (seconds1 + seconds2) on_court !! pid
      = Some once /\
    twice == once.
Proof.
  intros Hpid Hlevel H1 H2. eexists. eexists.
  rewrite !update_lookup, Hpid. cbn [fmap option_fmap option_map].
  split; [reflexivity |]. split; [reflexivity |].
  rewrite (stint_level_closed (_ / 60) _
             (new_fatigue_level_of (stint_t_new _ _ _))).
  rewrite (stint_level_closed ((seconds1 + seconds2) / 60)).
  pose proof (stint_level_closed (seconds1 / 60)
                (bool_decide (pid ∈ on_court)) level) as Hfirst.
  pose proof (new_fatigue_level_of_range
                (stint_t_new (seconds1 / 60) (bool_decide (pid ∈ on_court))
                   level)) as Hrange.
  set (mid := new_fatigue_level_of _) in *. clearbody mid.
  destruct (bool_decide (pid ∈ on_court));
    revert Hfirst; clamp_cases; intros Hfirst; qnorm; lra.
Qed.

Lemma stints_add_up_witness :
  exists twice once,
    update_fatigue_after_stint
      (update_fatigue_after_stint {["CAN_1" := 100]} 300 ["CAN_1"])
      600 ["CAN_1"] !! "CAN_1" = Some twice /\
    update_fatigue_after_stint {["CAN_1" := 100]} (300 + 600) ["CAN_1"]
      !! "CAN_1" = Some once /\
    twice == once.
Proof.
  apply (stints_add_up {["CAN_1" := 100]} 300 600 ["CAN_1"] "CAN_1" 100).
  - apply lookup_singleton_eq.
  - split; discriminate.
  - discriminate.
  - discriminate.
Defined.

(** X5: a player on court comes out at level 0 exactly when the stint
    lasts at least 21 seconds per point of the stored level (35 minutes
    from fresh), and a player on the bench comes out at level 100 exactly
    when it lasts at least 42 seconds per missing point (70 minutes from
    empty). *)
Theorem stint_saturation (fatigue : gmap string Q) (seconds : Q)
    (on_court : list string) (pid : string) (level : Q) :
  fatigue !! pid = Some level ->
  exists l,
    update_fatigue_after_stint fatigue seconds on_court !! pid = Some l /\
    (pid ∈ on_court -> (l == 0 <-> 21 * level <= seconds)) /\
    (pid ∉ on_court -> (l == 100 <-> 42 * (100 - level) <= seconds)).
Proof.
  intros Hpid. eexists. rewrite update_lookup, Hpid.
  split; [reflexivity |]. rewrite stint_level_closed.
  split; intros Hin.
  - rewrite bool_decide_eq_true_2 by exact Hin.
    clamp_cases; qnorm; split; intros; lra.
  - rewrite bool_decide_eq_false_2 by exact Hin.
    clamp_cases; qnorm; split; intros; lra.
Qed.

Lemma stint_saturation_witness :
  exists l,
    update_fatigue_after_stint {["CAN_1" := 100]} 2100 ["CAN_1"] !! "CAN_1"
      = Some l /\
    l == 0.
Proof.
  destruct (stint_saturation {["CAN_1" := 100]} 2100 ["CAN_1"] "CAN_1" 100
              (lookup_singleton_eq _ _)) as (l & Hl & Hin & _).
  exists l. split; [exact Hl |].
  apply (Hin (list_elem_of_here _ _)). discriminate.
Defined.

Lemma update_dom (fatigue : gmap string Q) (seconds : Q)
    (on_court : list string) :
  dom (update_fatigue_after_stint fatigue seconds on_court) = dom fatigue.
Proof.
  unfold update_fatigue_after_stint. cbv zeta. apply dom_imap_L.
  intros pid. rewrite elem_of_dom. split.
  - intros [level Hl]. exists level. split; [exact Hl | eauto].
  - intros (level & Hl & _). eauto.
Qed.

Lemma fatigue_after_stints_snoc (fatigue : gmap string Q)
    (stints : list (Q * list string)) (stint : Q * list string) :
  fatigue_after_stints fatigue (stints ++ [stint]) =
  update_fatigue_after_stint (fatigue_after_stints fatigue stints)
    stint.1 stint.2.
Proof. unfold fatigue_after_stints. rewrite foldl_app. reflexivity. Qed.

(** X6: over any sequence of saved stints the fatigue dictionary keeps
    exactly its keys (no player is dropped, no lineup id is added), and
    after the first stint every stored level lies in [0, 100], whatever the
    dictionary held at the start. *)
Theorem fatigue_dictionary_invariant (fatigue : gmap string Q)
    (stints : list (Q * list string)) :
  stints <> [] ->
  dom (fatigue_after_stints fatigue stints) = dom fatigue /\
  forall pid level,
    fatigue_after_stints fatigue stints !! pid = Some level ->
    0 <= level <= 100.
Proof.
  intros Hne. split.
  - clear Hne. induction stints as [| stint stints IH] using rev_ind;
      [reflexivity |].
    rewrite fatigue_after_stints_snoc, update_dom. exact IH.
  - destruct stints as [| stint stints _] using rev_ind; [contradiction |].
    intros pid level. rewrite fatigue_after_stints_snoc, update_lookup.
    destruct (fatigue_after_stints fatigue stints !! pid); [| discriminate].
    intros [= <-]. apply new_fatigue_level_of_range.
Qed.

Lemma fatigue_dictionary_invariant_witness :
  dom (fatigue_after_stints {["CAN_1" := 250; "CAN_2" := -40]}
         [(300, ["CAN_1"; "USA_9"]); (-60, ["CAN_2"])])
  = dom ({["CAN_1" := 250; "CAN_2" := -40]} : gmap string Q).
Proof.
  apply (fatigue_dictionary_invariant
           {["CAN_1" := 250; "CAN_2" := -40]}
           [(300, ["CAN_1"; "USA_9"]); (-60, ["CAN_2"])]).
  discriminate.
Defined.

(** ** Bounds on the adjusted score *)

Lemma pow_le_one (t : Q) (n : Z) : (0 <= n)%Z -> 0 <= t -> t <= 1 -> t ^ n <= 1.
Proof.
  intros Hn H0 H1. pose proof (pow_mono t 1 n Hn H0 H1) as H.
  rewrite Qpower_1 in H. exact H.
Qed.

Lemma pow_ge_one (t : Q) (n : Z) : (0 <= n)%Z -> 1 <= t -> 1 <= t ^ n.
Proof. intros Hn H1. apply Qpower_1_le; assumption. Qed.

(** X7: with the strategy weight of any scoreboard, fatigue never raises a
    score: the adjusted score is at most the base score, it has the sign of
    the base score, it is the base score for a fresh player ([t >= 1]), a
    positive score keeps at least 9% of its value and a penalty grows by at
    most the factor 100/9. *)
Theorem adjusted_score_bounds (home away beta t : Q) :
  let alpha := calculate_strategy_weight home away in
  score_adjusted_of alpha beta t <= beta /\
  (0 <= beta <-> 0 <= score_adjusted_of alpha beta t) /\
  (1 <= t -> score_adjusted_of alpha beta t == beta) /\
  (0 <= beta -> (9 # 100) * beta <= score_adjusted_of alpha beta t) /\
  (beta < 0 -> (100 # 9) * beta <= score_adjusted_of alpha beta t).
Proof.
  intros alpha. unfold score_adjusted_of, _adj, Float.pow. cbv zeta.
  pose proof (clamp_float t (3 # 10) 1 ltac:(lra)) as Hc.
  pose proof (clamp_range t (3 # 10) 1 ltac:(lra)) as Hr.
  set (c := Float.max (3 # 10) (Float.min 1 t)) in *.
  rewrite <- Hc in Hr.
  assert (Hfresh : 1 <= t -> c == 1).
  { intros Ht. rewrite Hc. clamp_cases; lra. }
  clearbody c. clear Hc.
  assert (Hguard : Float.max c (1 # 1000000) = c)
    by (float_cases; [lra | reflexivity]).
  rewrite Hguard.
  assert (Hinv : 1 <= 1 / c /\ 1 / c <= 10 # 3).
  { unfold Qdiv. rewrite Qmult_1_l. split.
    - apply Qle_shift_inv_l; lra.
    - apply Qle_shift_inv_r; lra. }
  assert (Hfresh' : 1 <= t -> 1 / c == 1).
  { intros Ht. rewrite (Hfresh Ht). reflexivity. }
  set (d := 1 / c) in *. clearbody d.
  assert (Hcc : 9 # 100 <= c * c /\ c * c <= 1) by (split; nra).
  assert (Hdd : 1 <= d * d /\ d * d <= 100 # 9) by (split; nra).
  destruct (calculate_strategy_weight_values home away) as [E | [E | E]];
    subst alpha; rewrite E;
    [change (Qfloor 0) with 0%Z; change (Qle_bool 0 0) with true
    | change (Qfloor 1) with 1%Z; change (Qle_bool 1 0) with false
    | change (Qfloor 2) with 2%Z; change (Qle_bool 2 0) with false];
    (destruct (Qle_bool 0 beta) eqn:Hb;
      [apply Qle_bool_iff in Hb | apply Qle_bool_false in Hb]);
    cbv [Qpower Qpower_positive pow_pos Pos.iter_op];
    set (cc := c * c) in *; set (dd := d * d) in *;
    repeat split; intros; try lra; try nra;
    try (rewrite Hfresh by assumption; lra);
    try (rewrite Hfresh' by assumption; lra);
    subst cc dd;
    try (rewrite Hfresh by assumption; lra);
    try (rewrite Hfresh' by assumption; lra).
Qed.

(** X8: values out of range are read as the nearest bound.  A fatigue level
    below 0 or above 100 gives the energy fraction of 0 or of 100, and
    [_adj] treats a fraction below 0.3 (zero and negative ones included) as
    0.3 and one above 1.0 as 1.0, so it never divides by zero. *)
Theorem out_of_range_is_clamped (alpha beta level t : Q) :
  fatigue_to_t_j level == fatigue_to_t_j (clamp level 0 100) /\
  _adj alpha beta t == _adj alpha beta (clamp t (3 # 10) 1) /\
  (t <= 3 # 10 -> _adj alpha beta t == _adj alpha beta (3 # 10)) /\
  (1 <= t -> _adj alpha beta t == _adj alpha beta 1).
Proof.
  assert (Hadj : forall t1 t2,
            Float.max (3 # 10) (Float.min 1 t1)
              == Float.max (3 # 10) (Float.min 1 t2) ->
            _adj alpha beta t1 == _adj alpha beta t2).
  { intros t1 t2 H. unfold _adj, Float.pow. cbv zeta.
    set (c1 := Float.max (3 # 10) (Float.min 1 t1)) in *.
    set (c2 := Float.max (3 # 10) (Float.min 1 t2)) in *.
    assert (H1 : 3 # 10 <= c1) by (subst c1; float_cases; lra).
    assert (H2 : 3 # 10 <= c2) by (subst c2; float_cases; lra).
    clearbody c1 c2.
    rewrite (adj_branches_compat alpha beta c1 (Float.max c1 (1 # 1000000)) c2),
            (adj_branches_compat alpha beta c2 (Float.max c2 (1 # 1000000)) c2);
      [reflexivity | reflexivity | | exact H |];
      float_cases; lra. }
  split; [| split; [| split]].
  - unfold fatigue_to_t_j. cbv zeta. clamp_cases; float_cases; qnorm; lra.
  - apply Hadj. clamp_cases; float_cases; lra.
  - intros Ht. apply Hadj. float_cases; lra.
  - intros Ht. apply Hadj. float_cases; lra.
Qed.

(** ** The dictionary returned by [optimize_lineup] *)

Lemma loc_Some (rows : list Row) (pid : string) (r : Row) :
  loc rows pid = Some r -> r ∈ rows /\ row_id r = pid.
Proof.
  unfold loc. destruct (filter _ rows) as [| x [| y l]] eqn:E; try discriminate.
  intros [= <-].
  assert (Hx : x ∈ filter (fun r => row_id r = pid) rows)
    by (rewrite E; apply list_elem_of_here).
  apply list_elem_of_filter in Hx. tauto.
Qed.

Lemma mapM_breakdown_shape (rows : list Row) (forced : list string)
    (alpha : Q) (combo : list string) (ds : list Q)
    (bd : list BreakdownEntry) :
  mapM (fun pid => r ← loc rows pid; Some (disability_score (row_player r)))
    combo = Some ds ->
  mapM (breakdown_entry rows forced alpha) combo = Some bd ->
  b_player_id <$> bd = combo /\
  ds = b_disability_score <$> bd /\
  Forall (fun e => exists row, row ∈ rows /\ entry_of_row forced alpha row e) bd.
Proof.
  intros Hds%mapM_Some Hbd%mapM_Some. revert ds Hds.
  induction Hbd as [| pid e combo bd He Hbd IH]; intros ds Hds.
  - inversion Hds. repeat split. constructor.
  - inversion Hds as [| ? d ? ds' Hd Hds']; subst.
    destruct (IH ds' Hds') as (Hids & Hcost & Hall).
    unfold breakdown_entry in He.
    destruct (loc rows pid) as [row |] eqn:Hloc; [| discriminate].
    cbn in He, Hd. inversion He; subst e. inversion Hd; subst d.
    apply loc_Some in Hloc as [Hin Hid].
    rewrite !fmap_cons. cbn. rewrite Hids, <- Hcost.
    repeat split. constructor; [| exact Hall].
    exists row. split; [exact Hin |].
    unfold entry_of_row. cbn. rewrite Hid. repeat split.
Qed.

Lemma gurobi_result_shape (optimize : Gurobi.Solver) (rows : list Row)
    (ids forced : list string) (cap : Q) (size : Z) (alpha : Q)
    (r : OptimizationResult) :
  _optimize_with_gurobi optimize rows rows ids forced cap size alpha
    = Returned r ->
  lineup r `sublist_of` ids /\
  b_player_id <$> breakdown r = lineup r /\
  disability_sum r = Float.sum (b_disability_score <$> breakdown r) /\
  Forall (fun e => exists row, row ∈ rows /\ entry_of_row forced alpha row e)
    (breakdown r).
Proof.
  unfold _optimize_with_gurobi.
  destruct (build_model _ _ _ _ _) as [m |]; [| discriminate].
  destruct (optimize m) as [s |]; [| discriminate].
  assert (Hempty : Returned empty_result = Returned r ->
    lineup r `sublist_of` ids /\
    b_player_id <$> breakdown r = lineup r /\
    disability_sum r = Float.sum (b_disability_score <$> breakdown r) /\
    Forall (fun e => exists row, row ∈ rows /\ entry_of_row forced alpha row e)
      (breakdown r)).
  { intros [= <-]. cbn. repeat split; [apply sublist_nil_l | constructor]. }
  assert (Hread :
    match mapM (fun pid => r0 ← loc rows pid;
                           Some (disability_score (row_player r0)))
            (filter (fun pid => Float.ltb (1 # 2) (Gurobi.X s pid) = true) ids),
          mapM (breakdown_entry rows forced alpha)
            (filter (fun pid => Float.ltb (1 # 2) (Gurobi.X s pid) = true) ids)
    with
    | Some ds, Some bd =>
      Returned {| lineup :=
                    filter (fun pid => Float.ltb (1 # 2) (Gurobi.X s pid) = true)
                      ids;
                  objective := Gurobi.ObjVal s;
                  disability_sum := Float.sum ds;
                  strategy_weight_alpha := Some alpha; breakdown := bd |}
    | _, _ => RuntimeError
    end = Returned r ->
    lineup r `sublist_of` ids /\
    b_player_id <$> breakdown r = lineup r /\
    disability_sum r = Float.sum (b_disability_score <$> breakdown r) /\
    Forall (fun e => exists row, row ∈ rows /\ entry_of_row forced alpha row e)
      (breakdown r)).
  { destruct (mapM _ _) as [ds |] eqn:Hds; [| discriminate].
    destruct (mapM (breakdown_entry rows forced alpha) _) as [bd |] eqn:Hbd;
      [| discriminate].
    intros [= <-]. cbn.
    destruct (mapM_breakdown_shape _ _ _ _ _ _ Hds Hbd) as (Hids & Hcost & Hall).
    split; [apply sublist_filter |]. split; [exact Hids |].
    split; [rewrite Hcost; reflexivity | exact Hall]. }
  destruct (Gurobi.status s); cbv zeta; auto.
Qed.

Lemma optimize_lineup_shape (optimize : Gurobi.Solver)
    (team_df : list Player) (availability : gmap string bool)
    (fatigue_levels : gmap string Q) (home_score away_score : Q)
    (pre_selected : option (list string)) (disability_cap : Q)
    (lineup_size : Z) (r : OptimizationResult) :
  optimize_lineup optimize team_df availability fatigue_levels
    home_score away_score pre_selected disability_cap lineup_size
    = Returned r ->
  let alpha := calculate_strategy_weight home_score away_score in
  let rows := scored_rows team_df availability fatigue_levels alpha in
  lineup r `sublist_of` (player_id <$> available_rows team_df availability) /\
  b_player_id <$> breakdown r = lineup r /\
  disability_sum r = Float.sum (b_disability_score <$> breakdown r) /\
  Forall (fun e => exists row,
            row ∈ rows /\ entry_of_row (default [] pre_selected) alpha row e)
    (breakdown r).
Proof.
  unfold optimize_lineup. cbv zeta.
  assert (Hempty : Returned empty_result = Returned r ->
    lineup r `sublist_of` (player_id <$> available_rows team_df availability) /\
    b_player_id <$> breakdown r = lineup r /\
    disability_sum r = Float.sum (b_disability_score <$> breakdown r) /\
    Forall (fun e => exists row,
              row ∈ scored_rows team_df availability fatigue_levels
                      (calculate_strategy_weight home_score away_score) /\
              entry_of_row (default [] pre_selected)
                (calculate_strategy_weight home_score away_score) row e)
      (breakdown r)).
  { intros [= <-]. cbn. repeat split; [apply sublist_nil_l | constructor]. }
  destruct (_ <? _)%Z; [exact Hempty |].
  destruct (Nat.ltb_spec
              (length (filter (fun p => p ∈ row_id <$>
                         scored_rows team_df availability fatigue_levels
                           (calculate_strategy_weight home_score away_score))
                         (default [] pre_selected)))
              (length (default [] pre_selected))) as [Hlt | Hge];
    [exact Hempty |].
  rewrite (filter_all _ _ (default [] pre_selected)) by lia.
  intros Hret. apply gurobi_result_shape in Hret.
  rewrite scored_rows_ids in Hret. exact Hret.
Qed.

(** X9: whatever the solver answers, a returned lineup lists ids of the
    roster in roster order, and each of them belongs to a roster player
    whose availability entry is not [False]. *)
Theorem lineup_drawn_from_available (optimize : Gurobi.Solver)
    (team_df : list Player) (availability : gmap string bool)
    (fatigue_levels : gmap string Q) (home_score away_score : Q)
    (pre_selected : option (list string)) (disability_cap : Q)
    (lineup_size : Z) (r : OptimizationResult) :
  optimize_lineup optimize team_df availability fatigue_levels
    home_score away_score pre_selected disability_cap lineup_size
    = Returned r ->
  lineup r `sublist_of` (player_id <$> team_df) /\
  forall pid, pid ∈ lineup r ->
    availability !! pid <> Some false /\
    exists p, p ∈ team_df /\ player_id p = pid.
Proof.
  intros Hret. destruct (optimize_lineup_shape _ _ _ _ _ _ _ _ _ _ Hret)
    as (Hsub & _).
  split.
  - etransitivity; [exact Hsub |].
    apply fmap_sublist, sublist_filter.
  - intros pid Hpid.
    assert (Hin : pid ∈ player_id <$> available_rows team_df availability)
      by (eapply elem_of_sublist; eassumption).
    apply list_elem_of_fmap in Hin as (p & -> & Hp).
    apply list_elem_of_filter in Hp as [Ha Hp].
    split; [| eauto].
    intros E. rewrite E in Ha. discriminate Ha.
Qed.

Lemma lineup_drawn_from_available_witness :
  let r := Sample.result_of
             (optimize_lineup (Exhaustive.solve false) Sample.roster
                {["CAN_3" := false]} ∅ 10 10 None 8 4) in
  lineup r = ["CAN_1"; "CAN_2"; "CAN_4"; "CAN_5"] /\
  lineup r `sublist_of` (player_id <$> Sample.roster).
Proof.
  intros r. split; [vm_compute; reflexivity |].
  refine (proj1 (lineup_drawn_from_available (Exhaustive.solve false)
    Sample.roster {["CAN_3" := false]} ∅ 10 10 None 8 4 r _)).
  vm_compute. reflexivity.
Defined.

(** X10: the breakdown of a returned dictionary lists exactly the players
    of the lineup, in the lineup's order; each entry copies its player's
    row (value score, energy fraction in [0.3, 1.0], adjusted score, cost),
    carries the strategy weight of the scoreboard and is flagged
    pre-selected exactly when its id was forced; and [disability_sum] is
    the sum of the entries' costs. *)
Theorem breakdown_describes_lineup (optimize : Gurobi.Solver)
    (team_df : list Player) (availability : gmap string bool)
    (fatigue_levels : gmap string Q) (home_score away_score : Q)
    (pre_selected : option (list string)) (disability_cap : Q)
    (lineup_size : Z) (r : OptimizationResult) :
  optimize_lineup optimize team_df availability fatigue_levels
    home_score away_score pre_selected disability_cap lineup_size
    = Returned r ->
  let alpha := calculate_strategy_weight home_score away_score in
  b_player_id <$> breakdown r = lineup r /\
  disability_sum r = Float.sum (b_disability_score <$> breakdown r) /\
  Forall (fun e =>
            b_alpha e = alpha /\
            b_is_pre_selected e
              = bool_decide (b_player_id e ∈ default [] pre_selected) /\
            3 # 10 <= b_t_j e <= 1 /\
            b_t_j e = default 1 (fatigue_to_t_j <$>
                                   fatigue_levels !! b_player_id e) /\
            b_adjusted_score e
              = score_adjusted_of alpha (b_value_score e) (b_t_j e) /\
            exists p, p ∈ team_df /\ player_id p = b_player_id e /\
                      value_score p = b_value_score e /\
                      disability_score p = b_disability_score e)
    (breakdown r).
Proof.
  intros Hret alpha.
  destruct (optimize_lineup_shape _ _ _ _ _ _ _ _ _ _ Hret)
    as (_ & Hids & Hsum & Hall).
  split; [exact Hids |]. split; [exact Hsum |].
  eapply Forall_impl; [exact Hall |]. cbn.
  intros e (row & Hrow & Hid & Hv & Ht & Ha & Hs & Hc & Hp).
  destruct (scored_row_t_j _ _ _ _ _ Hrow) as (Htj & Hscore & Hrange).
  apply scored_rows_elem in Hrow as (p & Hp' & _ & Hrowp).
  rewrite Hid, Ht, Hs, Hv. repeat split; try assumption; try apply Hrange.
  exists p. subst row. cbn in *. unfold cost in Hc. cbn in Hc.
  repeat split; auto.
Qed.

Lemma breakdown_describes_lineup_witness :
  let r := Sample.result_of
             (optimize_lineup (Exhaustive.solve false) Sample.roster ∅
                Sample.half_tired 10 10 (Some ["CAN_5"]) 8 4) in
  b_player_id <$> breakdown r = ["CAN_1"; "CAN_3"; "CAN_4"; "CAN_5"] /\
  b_player_id <$> breakdown r = lineup r.
Proof.
  intros r. split; [vm_compute; reflexivity |].
  refine (proj1 (breakdown_describes_lineup (Exhaustive.solve false)
    Sample.roster ∅ Sample.half_tired 10 10 (Some ["CAN_5"]) 8 4 r _)).
  vm_compute. reflexivity.
Defined.





(** ** Failure and infeasibility *)

Lemma filter_keeps_all (A : Type) (P : A -> Prop)
    `{!forall a, Decision (P a)} (l : list A) :
  (forall a, a ∈ l -> P a) -> filter P l = l.
Proof.
  induction l as [| a l IH]; intros Hall; [reflexivity |].
  rewrite filter_cons_True by (apply Hall, list_elem_of_here).
  rewrite IH by (intros x Hx; apply Hall, list_elem_of_further, Hx).
  reflexivity.
Qed.

Lemma reaches_solver (optimize : Gurobi.Solver)
    (team_df : list Player) (availability : gmap string bool)
    (fatigue_levels : gmap string Q) (home_score away_score : Q)
    (pre_selected : option (list string)) (disability_cap : Q)
    (lineup_size : Z) :
  (lineup_size <= Z.of_nat (length (available_rows team_df availability)))%Z ->
  (forall p, p ∈ default [] pre_selected ->
             p ∈ player_id <$> available_rows team_df availability) ->
  let alpha := calculate_strategy_weight home_score away_score in
  let rows := scored_rows team_df availability fatigue_levels alpha in
  lineup_model team_df availability fatigue_levels home_score away_score
    pre_selected lineup_size
  = build_model rows (row_id <$> rows) (default [] pre_selected) 8 lineup_size /\
  optimize_lineup optimize team_df availability fatigue_levels
    home_score away_score pre_selected disability_cap lineup_size
  = _optimize_with_gurobi optimize rows rows (row_id <$> rows)
      (default [] pre_selected) 8 lineup_size alpha.
Proof.
  intros Hsize Hforced alpha rows.
  assert (Hall : filter (fun p => p ∈ row_id <$> rows) (default [] pre_selected)
                 = default [] pre_selected).
  { apply filter_keeps_all. intros p Hp. unfold rows.
    rewrite scored_rows_ids. apply Hforced, Hp. }
  split.
  - unfold lineup_model. cbv zeta. fold alpha. fold rows. rewrite Hall.
    reflexivity.
  - unfold optimize_lineup. cbv zeta. fold alpha. fold rows.
    rewrite (proj2 (Z.ltb_ge _ _)) by exact Hsize.
    rewrite Hall, Nat.ltb_irrefl. reflexivity.
Qed.

Lemma infeasible_request_returns_empty_early (optimize : Gurobi.Solver)
    (team_df : list Player) (availability : gmap string bool)
    (fatigue_levels : gmap string Q) (home_score away_score : Q)
    (pre_selected : option (list string)) (disability_cap : Q)
    (lineup_size : Z) :
  (Z.of_nat (length (available_rows team_df availability)) < lineup_size)%Z \/
  (exists p, p ∈ default [] pre_selected /\
             p ∉ player_id <$> available_rows team_df availability) ->
  optimize_lineup optimize team_df availability fatigue_levels
    home_score away_score pre_selected disability_cap lineup_size
  = Returned empty_result.
Proof.
  intros H. unfold optimize_lineup. cbv zeta.
  destruct (Z.ltb_spec (Z.of_nat (length (available_rows team_df availability)))
              lineup_size) as [Hlt | Hge]; [reflexivity |].
  destruct H as [H | (p & Hp & Hnot)]; [lia |].
  rewrite scored_rows_ids.
  pose proof (length_filter_lt
    (fun p => p ∈ player_id <$> available_rows team_df availability)
    (default [] pre_selected) p Hp Hnot) as Hlen.
  apply Nat.ltb_lt in Hlen. rewrite Hlen. reflexivity.
Qed.

(** X12: a failure of the solver is not swallowed by [optimize_lineup]:
    when enough players are available and every forced id is available, so
    that the call gets past its two early returns, and the solver raises on
    the model it is given, the call raises [RuntimeError]. *)
Theorem solver_failure_is_raised (optimize : Gurobi.Solver)
    (team_df : list Player) (availability : gmap string bool)
    (fatigue_levels : gmap string Q) (home_score away_score : Q)
    (pre_selected : option (list string)) (disability_cap : Q)
    (lineup_size : Z) :
  (lineup_size <= Z.of_nat (length (available_rows team_df availability)))%Z ->
  (forall p, p ∈ default [] pre_selected ->
             p ∈ player_id <$> available_rows team_df availability) ->
  (forall m,
     lineup_model team_df availability fatigue_levels home_score away_score
       pre_selected lineup_size = Some m ->
     optimize m = None) ->
  optimize_lineup optimize team_df availability fatigue_levels
    home_score away_score pre_selected disability_cap lineup_size
  = RuntimeError.
Proof.
  intros Hsize Hforced Hfail.
  destruct (reaches_solver optimize team_df availability fatigue_levels
              home_score away_score pre_selected disability_cap lineup_size
              Hsize Hforced) as [Hmodel Hcall].
  rewrite Hcall. rewrite Hmodel in Hfail. unfold _optimize_with_gurobi.
  destruct (build_model _ _ _ _ _) as [m |]; [| reflexivity].
  rewrite (Hfail m eq_refl). reflexivity.
Qed.

Lemma solver_failure_is_raised_witness :
  optimize_lineup Cases.failing Sample.roster ∅ ∅ 10 10 (Some ["CAN_2"]) 8 4
  = RuntimeError.
Proof.
  apply solver_failure_is_raised.
  - vm_compute. discriminate.
  - intros p Hp. refine (bool_decide_unpack _ _).
    apply list_elem_of_singleton in Hp as ->. vm_compute. exact I.
  - intros m _. reflexivity.
Defined.




(** X14: on a roster with unique ids [optimize_lineup] raises only when the
    solver does: if the solver answers on the model it is given, the call
    returns a dictionary (no lookup in the frame fails). *)
Theorem only_the_solver_raises (optimize : Gurobi.Solver)
    (team_df : list Player) (availability : gmap string bool)
    (fatigue_levels : gmap string Q) (home_score away_score : Q)
    (pre_selected : option (list string)) (disability_cap : Q)
    (lineup_size : Z) :
  NoDup (player_id <$> team_df) ->
  (forall m,
     lineup_model team_df availability fatigue_levels home_score away_score
       pre_selected lineup_size = Some m ->
     optimize m <> None) ->
  exists r,
    optimize_lineup optimize team_df availability fatigue_levels
      home_score away_score pre_selected disability_cap lineup_size
    = Returned r.
Proof.
  intros Hids Hanswers.
  destruct (Z.ltb_spec (Z.of_nat (length (available_rows team_df availability)))
              lineup_size) as [Hlt | Hsize].
  { eexists. apply infeasible_request_returns_empty_early. left. exact Hlt. }
  destruct (decide (Forall (fun p => p ∈ player_id <$>
                              available_rows team_df availability)
                      (default [] pre_selected))) as [Hforced | Hmissing].
  2: { eexists. apply infeasible_request_returns_empty_early. right.
       apply not_Forall_Exists in Hmissing; [| intros p; apply _].
       apply Exists_exists in Hmissing. exact Hmissing. }
  rewrite Forall_forall in Hforced.
  destruct (reaches_solver optimize team_df availability fatigue_levels
              home_score away_score pre_selected disability_cap lineup_size
              Hsize Hforced) as [Hmodel Hcall].
  rewrite Hcall. cbv zeta in Hmodel.
  set (rows := scored_rows team_df availability fatigue_levels
                 (calculate_strategy_weight home_score away_score)) in *.
  assert (Hnd : NoDup (row_id <$> rows)).
  { unfold rows. rewrite scored_rows_ids.
    apply available_ids_distinct, Hids. }
  rewrite build_model_rows in Hmodel by exact Hnd.
  destruct (optimize (selection_model rows (default [] pre_selected) 8
                        lineup_size)) as [s |] eqn:Hs;
    [| destruct (Hanswers _ Hmodel Hs)].
  exact (optimize_with_gurobi_returns optimize rows _ 8 lineup_size _ Hnd s Hs).
Qed.

Lemma only_the_solver_raises_witness :
  exists r,
    optimize_lineup Exhaustive.first_feasible Sample.roster ∅
      Sample.half_tired 3 10 (Some ["CAN_2"]) 8 4 = Returned r.
Proof.
  apply only_the_solver_raises.
  - refine (bool_decide_unpack _ _). vm_compute. exact I.
  - intros m Hm. vm_compute in Hm. injection Hm as <-. vm_compute.
    discriminate.
Defined.

(** ** The wrapper of [app.py] *)



(** ** A trailing team *)

Lemma trailing_weight (home away : Q) :
  home - away < -2 -> calculate_strategy_weight home away = 0.
Proof.
  intros H. unfold calculate_strategy_weight. cbv zeta.
  rewrite (proj2 (ltb_lt _ _) H). reflexivity.
Qed.

Lemma filter_scored (g : Player -> Row) (l : list Player) (pid : string) :
  (forall p, row_id (g p) = player_id p) ->
  filter (fun r => row_id r = pid) (g <$> l)
  = g <$> filter (fun p => player_id p = pid) l.
Proof.
  intros Hid. induction l as [| p l IH]; [reflexivity |].
  rewrite fmap_cons, !filter_cons, IH, Hid.
  destruct (decide (player_id p = pid)); reflexivity.
Qed.

Lemma loc_columns (d1 d2 : gmap string Q) (alpha : Q) (l : list Player)
    (pid : string) :
  match loc (add_columns d1 alpha <$> l) pid,
        loc (add_columns d2 alpha <$> l) pid with
  | Some r1, Some r2 =>
    exists p, r1 = add_columns d1 alpha p /\ r2 = add_columns d2 alpha p
  | None, None => True
  | _, _ => False
  end.
Proof.
  unfold loc. rewrite !filter_scored by reflexivity.
  destruct (filter _ l) as [| p [| q l']]; cbn; eauto.
Qed.

Lemma mapM_related (A B1 B2 : Type) (R : B1 -> B2 -> Prop)
    (f1 : A -> option B1) (f2 : A -> option B2) (ids : list A) :
  (forall x, match f1 x, f2 x with
             | Some a, Some b => R a b
             | None, None => True
             | _, _ => False
             end) ->
  match mapM f1 ids, mapM f2 ids with
  | Some k1, Some k2 => Forall2 R k1 k2
  | None, None => True
  | _, _ => False
  end.
Proof.
  intros Hrel. induction ids as [| x ids IH]; [constructor |].
  cbn. specialize (Hrel x).
  destruct (f1 x), (f2 x); cbn; try contradiction; [| exact I].
  destruct (mapM f1 ids), (mapM f2 ids); cbn; try contradiction; [| exact I].
  constructor; assumption.
Qed.

Lemma mapM_same (A B : Type) (f1 f2 : A -> option B) (ids : list A) :
  (forall x, match f1 x, f2 x with
             | Some a, Some b => a = b
             | None, None => True
             | _, _ => False
             end) ->
  mapM f1 ids = mapM f2 ids.
Proof.
  intros Hrel. pose proof (mapM_related A B B eq f1 f2 ids Hrel) as H.
  destruct (mapM f1 ids), (mapM f2 ids); try contradiction; [| reflexivity].
  f_equal. apply list_eq_Forall2, H.
Qed.

Lemma quicksum_ignores_t_j (d1 d2 : gmap string Q) (l : list Player)
    (col : Row -> Q) (ids : list string) :
  (forall p, col (add_columns d1 0 p) = col (add_columns d2 0 p)) ->
  quicksum_col (add_columns d1 0 <$> l) col ids
  = quicksum_col (add_columns d2 0 <$> l) col ids.
Proof.
  intros Hcol. unfold quicksum_col. apply mapM_same. intros pid.
  pose proof (loc_columns d1 d2 0 l pid) as H.
  destruct (loc (add_columns d1 0 <$> l) pid),
           (loc (add_columns d2 0 <$> l) pid); cbn; try contradiction; auto.
  destruct H as (p & -> & ->). rewrite Hcol. reflexivity.
Qed.

Lemma build_model_ignores_t_j (d1 d2 : gmap string Q) (l : list Player)
    (ids forced : list string) (cap : Q) (size : Z) :
  build_model (add_columns d1 0 <$> l) ids forced cap size
  = build_model (add_columns d2 0 <$> l) ids forced cap size.
Proof.
  unfold build_model.
  rewrite (quicksum_ignores_t_j d1 d2 l score_adjusted) by reflexivity.
  rewrite (quicksum_ignores_t_j d1 d2 l
             (fun r => disability_score (row_player r))) by reflexivity.
  reflexivity.
Qed.

Lemma gurobi_ignores_t_j (optimize : Gurobi.Solver) (d1 d2 : gmap string Q)
    (l : list Player) (ids forced : list string) (cap : Q) (size : Z)
    (r1 : OptimizationResult) :
  _optimize_with_gurobi optimize (add_columns d1 0 <$> l)
    (add_columns d1 0 <$> l) ids forced cap size 0 = Returned r1 ->
  exists r2,
    _optimize_with_gurobi optimize (add_columns d2 0 <$> l)
      (add_columns d2 0 <$> l) ids forced cap size 0 = Returned r2 /\
    lineup r2 = lineup r1 /\ objective r2 = objective r1 /\
    disability_sum r2 = disability_sum r1 /\
    Forall2 same_but_t_j (breakdown r1) (breakdown r2).
Proof.
  unfold _optimize_with_gurobi.
  rewrite (build_model_ignores_t_j d1 d2).
  destruct (build_model _ _ _ _ _) as [m |]; [| discriminate].
  destruct (optimize m) as [s |]; [| discriminate].
  assert (Hempty : Returned empty_result = Returned r1 ->
    exists r2, Returned empty_result = Returned r2 /\
      lineup r2 = lineup r1 /\ objective r2 = objective r1 /\
      disability_sum r2 = disability_sum r1 /\
      Forall2 same_but_t_j (breakdown r1) (breakdown r2)).
  { intros [= <-]. exists empty_result. repeat split. constructor. }
  set (combo := filter (fun pid => Float.ltb (1 # 2) (Gurobi.X s pid) = true)
                  ids).
  assert (Hds :
    mapM (fun pid => r ← loc (add_columns d1 0 <$> l) pid;
                     Some (disability_score (row_player r))) combo
    = mapM (fun pid => r ← loc (add_columns d2 0 <$> l) pid;
                       Some (disability_score (row_player r))) combo).
  { apply mapM_same. intros pid.
    pose proof (loc_columns d1 d2 0 l pid) as H.
    destruct (loc (add_columns d1 0 <$> l) pid),
             (loc (add_columns d2 0 <$> l) pid); cbn; try contradiction; auto.
    destruct H as (p & -> & ->). reflexivity. }
  pose proof (mapM_related _ _ _ same_but_t_j
    (breakdown_entry (add_columns d1 0 <$> l) forced 0)
    (breakdown_entry (add_columns d2 0 <$> l) forced 0) combo) as Hbd.
  assert (Hread :
    match mapM (fun pid => r ← loc (add_columns d1 0 <$> l) pid;
                           Some (disability_score (row_player r))) combo,
          mapM (breakdown_entry (add_columns d1 0 <$> l) forced 0) combo with
    | Some ds, Some bd =>
      Returned {| lineup := combo; objective := Gurobi.ObjVal s;
                  disability_sum := Float.sum ds;
                  strategy_weight_alpha := Some 0; breakdown := bd |}
    | _, _ => RuntimeError
    end = Returned r1 ->
    exists r2,
      match mapM (fun pid => r ← loc (add_columns d2 0 <$> l) pid;
                             Some (disability_score (row_player r))) combo,
            mapM (breakdown_entry (add_columns d2 0 <$> l) forced 0) combo with
      | Some ds, Some bd =>
        Returned {| lineup := combo; objective := Gurobi.ObjVal s;
                    disability_sum := Float.sum ds;
                    strategy_weight_alpha := Some 0; breakdown := bd |}
      | _, _ => RuntimeError
      end = Returned r2 /\
      lineup r2 = lineup r1 /\ objective r2 = objective r1 /\
      disability_sum r2 = disability_sum r1 /\
      Forall2 same_but_t_j (breakdown r1) (breakdown r2)).
  { rewrite <- Hds.
    destruct (mapM _ combo) as [ds |]; [| discriminate].
    destruct (mapM (breakdown_entry (add_columns d1 0 <$> l) forced 0) combo)
      as [bd1 |]; [| discriminate].
    intros [= <-].
    destruct (mapM (breakdown_entry (add_columns d2 0 <$> l) forced 0) combo)
      as [bd2 |].
    - eexists. split; [reflexivity |]. cbn. repeat split.
      apply Hbd. intros pid. unfold breakdown_entry.
      pose proof (loc_columns d1 d2 0 l pid) as H.
      destruct (loc (add_columns d1 0 <$> l) pid),
               (loc (add_columns d2 0 <$> l) pid); cbn; try contradiction; auto.
      destruct H as (p & -> & ->). repeat split.
    - exfalso. apply Hbd. intros pid. unfold breakdown_entry.
      pose proof (loc_columns d1 d2 0 l pid) as H.
      destruct (loc (add_columns d1 0 <$> l) pid),
               (loc (add_columns d2 0 <$> l) pid); cbn; try contradiction; auto.
      destruct H as (p & -> & ->). repeat split. }
  destruct (Gurobi.status s); cbv zeta; auto.
Qed.

(** X16: a team that trails by more than 2 is picked without regard to
    fatigue.  The model handed to the solver is the same for any two
    fatigue dictionaries, and so are the lineup, the objective and the
    disability sum returned; every adjusted score in the breakdown is the
    player's value score. *)
Theorem trailing_team_ignores_fatigue (optimize : Gurobi.Solver)
    (team_df : list Player) (availability : gmap string bool)
    (fatigue1 fatigue2 : gmap string Q) (home_score away_score : Q)
    (pre_selected : option (list string)) (disability_cap : Q)
    (lineup_size : Z) (r1 : OptimizationResult) :
  home_score - away_score < -2 ->
  optimize_lineup optimize team_df availability fatigue1
    home_score away_score pre_selected disability_cap lineup_size
    = Returned r1 ->
  lineup_model team_df availability fatigue1 home_score away_score
    pre_selected lineup_size
  = lineup_model team_df availability fatigue2 home_score away_score
      pre_selected lineup_size /\
  exists r2,
    optimize_lineup optimize team_df availability fatigue2
      home_score away_score pre_selected disability_cap lineup_size
      = Returned r2 /\
    lineup r2 = lineup r1 /\ objective r2 = objective r1 /\
    disability_sum r2 = disability_sum r1 /\
    Forall2 same_but_t_j (breakdown r1) (breakdown r2).
Proof.
  intros Htrail. unfold optimize_lineup, lineup_model. cbv zeta.
  rewrite (trailing_weight _ _ Htrail). rewrite !scored_rows_ids.
  unfold scored_rows. intros Hret. split.
  - apply build_model_ignores_t_j.
  - destruct (_ <? _)%Z.
    { exists empty_result. inversion Hret. repeat split. constructor. }
    destruct (_ <? _)%nat.
    { exists empty_result. inversion Hret. repeat split. constructor. }
    apply (gurobi_ignores_t_j optimize _ (t_j_dict_of fatigue2)) in Hret.
    exact Hret.
Qed.

Lemma trailing_team_ignores_fatigue_witness :
  exists r2,
    optimize_lineup (Exhaustive.solve false) Sample.roster ∅ ∅ 5 10 None 8 4
      = Returned r2 /\
    lineup r2 = ["CAN_1"; "CAN_3"; "CAN_4"; "CAN_5"].
Proof.
  destruct (trailing_team_ignores_fatigue (Exhaustive.solve false)
    Sample.roster ∅ Sample.half_tired ∅ 5 10 None 8 4
    (Sample.result_of
       (optimize_lineup (Exhaustive.solve false) Sample.roster ∅
          Sample.half_tired 5 10 None 8 4)))
    as (_ & r2 & Hr2 & Hl & _).
  - reflexivity.
  - vm_compute. reflexivity.
  - exists r2. split; [exact Hr2 |]. rewrite Hl. vm_compute. reflexivity.
Defined.

(** ** The clock text *)

Lemma to_uint_nonnil (n : N) : N.to_uint n <> Decimal.Nil.
Proof.
  destruct n; [discriminate |]. apply DecimalPos.Unsigned.to_uint_nonnil.
Qed.

Lemma parse_decimal (k : Z) : (0 <= k)%Z -> parse_02d (App.decimal k) = Some k.
Proof.
  intros Hk. unfold parse_02d, App.decimal.
  rewrite NilZero.usu by apply to_uint_nonnil. cbn.
  rewrite DecimalN.Unsigned.of_to, Z2N.id by exact Hk. reflexivity.
Qed.

Lemma parse_format (k : Z) :
  (0 <= k)%Z -> parse_02d (App.format_02d k) = Some k.
Proof.
  intros Hk. unfold App.format_02d.
  destruct (Z.ltb_spec k 0); [lia |].
  destruct (Z.ltb_spec k 10) as [Hlt | Hge]; [| apply parse_decimal, Hk].
  assert (Hcases : (k = 0 \/ k = 1 \/ k = 2 \/ k = 3 \/ k = 4 \/ k = 5 \/
                    k = 6 \/ k = 7 \/ k = 8 \/ k = 9)%Z) by lia.
  repeat (destruct Hcases as [-> | Hcases]; [reflexivity |]). subst k.
  reflexivity.
Qed.

Lemma format_length (k : Z) :
  (0 <= k < 100)%Z -> String.length (App.format_02d k) = 2%nat.
Proof.
  intros Hk. rewrite <- (Z2Nat.id k) by lia.
  assert (Hn : (Z.to_nat k < 100)%nat) by lia.
  remember (Z.to_nat k) as n eqn:E. clear E Hk.
  do 100 (destruct n as [| n]; [reflexivity |]). lia.
Qed.

Lemma string_length_append (a b : string) :
  String.length (String.append a b)
  = (String.length a + String.length b)%nat.
Proof.
  induction a as [| c a IH]; [reflexivity |].
  change (String.append (String c a) b) with (String c (String.append a b)).
  cbn [String.length]. rewrite IH. reflexivity.
Qed.

Lemma append_same_tail_length (a1 a2 b1 b2 : string) :
  String.length b1 = String.length b2 ->
  String.append a1 b1 = String.append a2 b2 -> a1 = a2 /\ b1 = b2.
Proof.
  revert a2. induction a1 as [| c a1 IH]; intros [| c2 a2] Hlen E.
  - auto.
  - exfalso. apply (f_equal String.length) in E.
    rewrite !string_length_append in E. cbn in E. lia.
  - exfalso. apply (f_equal String.length) in E.
    rewrite !string_length_append in E. cbn in E. lia.
  - change (String c (String.append a1 b1) = String c2 (String.append a2 b2))
      in E.
    injection E as -> E. destruct (IH a2 Hlen E) as [-> ->]. auto.
Qed.

Lemma int_below_one (a : Q) : a < 1 -> (App.int a <= 0)%Z.
Proof.
  unfold Qlt, App.int. cbn. intros H.
  destruct (Z.le_gt_cases 0 (Qnum a)) as [Hpos | Hneg].
  - rewrite Z.quot_small by lia. lia.
  - apply Z.quot_le_upper_bound; lia.
Qed.

Lemma fmt_time_of_seconds (a : Q) :
  App.fmt_time (Some a) =
  String.append (App.format_02d (Z.max 0 (App.int a) / 60))
    (String.append ":" (App.format_02d (Z.max 0 (App.int a) mod 60))).
Proof. reflexivity. Qed.

(** X17: the clock text shows whole seconds and nothing else.  No time
    ([None]), any time below one second and any negative time read
    "00:00", also through [elapsed] when no timer was started; and two
    times have the same text exactly when they have the same number of
    whole seconds ([int] truncates, negative times count as 0).  For a time
    that is not negative [int] is the floor. *)
Theorem fmt_time_shows_whole_seconds (now a b : Q) :
  App.fmt_time None = "00:00" /\
  App.fmt_time (App.elapsed now None) = "00:00" /\
  (a < 1 -> App.fmt_time (Some a) = "00:00") /\
  (App.fmt_time (Some a) = App.fmt_time (Some b) <->
   Z.max 0 (App.int a) = Z.max 0 (App.int b)) /\
  (0 <= a -> App.int a = Qfloor a).
Proof.
  split; [reflexivity |]. split; [reflexivity |]. split; [| split].
  - intros Ha. rewrite fmt_time_of_seconds.
    rewrite Z.max_l by (apply int_below_one, Ha). reflexivity.
  - split; [| intros E; rewrite !fmt_time_of_seconds, E; reflexivity].
    rewrite !fmt_time_of_seconds.
    set (n := Z.max 0 (App.int a)). set (m := Z.max 0 (App.int b)).
    assert (Hn : (0 <= n)%Z) by apply Z.le_max_l.
    assert (Hm : (0 <= m)%Z) by apply Z.le_max_l.
    clearbody n m. intros E.
    apply append_same_tail_length in E as [Emin Esec].
    + apply append_same_tail_length in Esec as [_ Esec].
      2: { pose proof (Z.mod_pos_bound n 60). pose proof (Z.mod_pos_bound m 60).
           rewrite !format_length; [reflexivity | |]; lia. }
      apply (f_equal parse_02d) in Emin, Esec.
      rewrite !parse_format in Emin, Esec
        by (try apply Z.div_pos; try apply Z.mod_pos_bound; lia).
      injection Emin as Emin. injection Esec as Esec.
      rewrite (Z.div_mod n 60), (Z.div_mod m 60) by lia. lia.
    + rewrite !string_length_append, !format_length; [reflexivity | |];
        pose proof (Z.mod_pos_bound n 60); pose proof (Z.mod_pos_bound m 60);
        lia.
  - intros Ha. unfold App.int, Qfloor. destruct a as [p q]. cbn.
    apply Z.quot_div_nonneg; [| lia].
    unfold Qle in Ha. cbn in Ha. lia.
Qed.

(** ** Value scores *)

Lemma abs_max_bounds (values : list Q) :
  0 <= App.abs_max values /\
  (forall v, v ∈ values -> Qabs v <= App.abs_max values) /\
  (App.abs_max values = 0 \/
   exists v, v ∈ values /\ App.abs_max values = Qabs v).
Proof.
  induction values as [| a values (Hpos & Hle & Htop)].
  - cbn. split; [lra |]. split; [| auto]. intros v Hv. inversion Hv.
  - cbn [App.abs_max foldr]. fold (App.abs_max values).
    pose proof (Qabs_nonneg a) as Ha.
    destruct (max_cases (Qabs a) (App.abs_max values)) as [[Hlt ->] | [Hge ->]].
    + split; [exact Hpos |]. split.
      * intros v Hv. apply elem_of_cons in Hv as [-> | Hv]; [lra | auto].
      * destruct Htop as [E | (v & Hv & E)]; [left; exact E | right].
        exists v. split; [apply list_elem_of_further, Hv | exact E].
    + split; [exact Ha |]. split.
      * intros v Hv. apply elem_of_cons in Hv as [-> | Hv]; [lra |].
        specialize (Hle v Hv). lra.
      * right. exists a. split; [apply list_elem_of_here | reflexivity].
Qed.

Lemma scaled_in_range (v mx : Q) :
  0 < mx -> Qabs v <= mx -> -10 <= v / mx * 10 /\ v / mx * 10 <= 10.
Proof.
  intros Hmx Hv. apply Qabs_Qle_condition in Hv as [Hlo Hhi].
  assert (Hinv : 0 < / mx) by (apply Qinv_lt_0_compat, Hmx).
  assert (Hone : mx * / mx == 1) by (apply Qmult_inv_r; lra).
  unfold Qdiv. split; nra.
Qed.

Lemma scaled_top (v mx : Q) :
  0 < mx -> mx = Qabs v -> Qabs (v / mx * 10) == 10.
Proof.
  intros Hmx E.
  assert (Hone : mx * / mx == 1) by (apply Qmult_inv_r; lra).
  destruct (Qlt_le_dec v 0) as [Hneg | Hpos].
  - assert (Hv : mx == - v) by (rewrite E; apply Qabs_neg; lra).
    assert (Hs : v / mx * 10 == -10).
    { unfold Qdiv. assert (v == - mx) by lra. nra. }
    rewrite Hs. reflexivity.
  - assert (Hv : mx == v) by (rewrite E; apply Qabs_pos; lra).
    assert (Hs : v / mx * 10 == 10).
    { unfold Qdiv. nra. }
    rewrite Hs. reflexivity.
Qed.

(** X18: [compute_value_scores] keeps the players, their order, countries
    and ratings, and gives every player a value score in [-10, 10].  A
    player who appears in no stint of positive length gets 0, and unless
    every score is 0 some player's score is 10 or -10. *)
Theorem value_scores_are_scaled (players_df : list App.RatedPlayer)
    (stints_df : list App.Stint) :
  let out := App.compute_value_scores players_df stints_df in
  Forall2 (fun rp p =>
             player_id p = App.rated_id rp /\
             country p = App.rated_country rp /\
             disability_score p = App.rating rp /\
             (-10 <= value_score p /\ value_score p <= 10) /\
             (App.rated_id rp ∉ App.long_id <$> App.long_rows stints_df ->
              value_score p == 0))
    players_df out /\
  (Exists (fun p => ~ value_score p == 0) out ->
   Exists (fun p => Qabs (value_score p) == 10) out).
Proof.
  intros out. subst out. unfold App.compute_value_scores. cbv zeta.
  destruct (App.long_rows stints_df) as [| row0 long'] eqn:Hlong.
  { split.
    - apply Forall2_fmap_r, Forall_Forall2_diag, Forall_forall.
      intros rp _. cbn. repeat split; try reflexivity; try lra.
    - intros Hex. apply Exists_exists in Hex as (p & Hp & Hnz).
      apply list_elem_of_fmap in Hp as (rp & -> & _). cbn in Hnz.
      exfalso. apply Hnz. reflexivity. }
  rewrite <- Hlong. clear Hlong row0 long'.
  set (long_df := App.long_rows stints_df).
  set (raw := fun rp => default 0 (App.agg_value long_df (App.rated_id rp))).
  set (merged := (fun p => (p, default 0 (App.agg_value long_df (App.rated_id p))))
                   <$> players_df).
  assert (Hvalues : snd <$> merged = raw <$> players_df).
  { unfold merged. rewrite <- list_fmap_compose. reflexivity. }
  rewrite Hvalues.
  destruct (abs_max_bounds (raw <$> players_df)) as (Hpos & Hle & Htop).
  set (mx := App.abs_max (raw <$> players_df)) in *.
  assert (Hraw0 : forall rp,
            App.rated_id rp ∉ App.long_id <$> long_df -> raw rp = 0).
  { intros rp Hnot. unfold raw, App.agg_value.
    replace (filter (fun row => App.long_id row = App.rated_id rp) long_df)
      with (@nil App.LongRow); [reflexivity |].
    symmetry. clear -Hnot. induction long_df as [| row l IH]; [reflexivity |].
    rewrite fmap_cons, not_elem_of_cons in Hnot. destruct Hnot as [Hne Hnot].
    rewrite filter_cons_False by (intros E; apply Hne; symmetry; exact E).
    apply IH, Hnot. }
  destruct (Float.ltb 0 mx) eqn:Hmx;
    [apply ltb_lt in Hmx | apply ltb_ge in Hmx].
  - split.
    + unfold merged. rewrite <- list_fmap_compose.
      apply Forall2_fmap_r, Forall_Forall2_diag, Forall_forall.
      intros rp Hrp. cbn. fold (raw rp).
      repeat split; try reflexivity.
      * apply scaled_in_range; [exact Hmx |].
        apply Hle, list_elem_of_fmap. eauto.
      * apply scaled_in_range; [exact Hmx |].
        apply Hle, list_elem_of_fmap. eauto.
      * intros Hnot. rewrite (Hraw0 rp Hnot). unfold Qdiv. ring.
    + intros _. destruct Htop as [E | (v & Hv & E)]; [rewrite E in Hmx; lra |].
      apply list_elem_of_fmap in Hv as (rp & -> & Hrp).
      apply Exists_exists.
      exists (App.with_value rp (raw rp / mx * 10)). split.
      * unfold merged. rewrite <- list_fmap_compose.
        apply list_elem_of_fmap. exists rp. split; [reflexivity | exact Hrp].
      * cbn. apply scaled_top; assumption.
  - assert (Hzero : forall rp, rp ∈ players_df -> raw rp == 0).
    { intros rp Hrp.
      assert (Hv : Qabs (raw rp) <= mx)
        by (apply Hle, list_elem_of_fmap; eauto).
      apply Qabs_Qle_condition in Hv. lra. }
    split.
    + unfold merged. rewrite <- list_fmap_compose.
      apply Forall2_fmap_r, Forall_Forall2_diag, Forall_forall.
      intros rp Hrp. cbn. fold (raw rp). rewrite (Hzero rp Hrp).
      repeat split; try reflexivity; lra.
    + intros Hex. apply Exists_exists in Hex as (p & Hp & Hnz).
      unfold merged in Hp. rewrite <- list_fmap_compose in Hp.
      apply list_elem_of_fmap in Hp as (rp & -> & Hrp). cbn in Hnz.
      exfalso. apply Hnz, Hzero, Hrp.
Qed.

(** ** The session *)

Lemma wrapper_lineup_valid (opt : option Gurobi.Solver)
    (team_df : list Player) (availability : gmap string bool)
    (fatigue_levels : gmap string Q) (home_score away_score : Q)
    (pre_selected : option (list string)) :
  (forall solver, opt = Some solver -> Gurobi.contract solver) ->
  NoDup (player_id <$> team_df) ->
  let r := App.optimize_lineup opt team_df availability fatigue_levels
             home_score away_score pre_selected in
  lineup r = [] \/ (length (lineup r) = 4%nat /\ NoDup (lineup r)).
Proof.
  intros Hc Hids r. subst r. unfold App.optimize_lineup. cbv zeta.
  destruct opt as [solver |]; [| left; reflexivity].
  destruct (optimize_lineup solver _ _ _ _ _ _ _ _) as [r |] eqn:Hret;
    [| left; reflexivity].
  destruct (lineup r) as [| p l] eqn:Hl; [left; reflexivity | right].
  assert (Hne : lineup r <> []) by (rewrite Hl; discriminate).
  destruct (optimize_lineup_sound solver (Hc solver eq_refl) _ _ _ _ _ _ _ _
              Hids r Hret Hne)
    as (_ & s & _ & _ & Hlineup & [Hdistinct _ Hlen _ _] & _).
  rewrite <- Hl, Hlineup, length_fmap. split; [lia | exact Hdistinct].
Qed.

Lemma take_valid (all_ids : list string) (res : OptimizationResult)
    (s : App.Session) :
  (lineup res = [] \/ (length (lineup res) = 4%nat /\ NoDup (lineup res))) ->
  valid_session all_ids s -> valid_session all_ids (App.take res s).
Proof.
  intros Hres (Hl & Hrange & Hkeys). split; [| split; assumption].
  cbn. destruct (lineup res) as [| p l] eqn:E; [exact Hl |].
  destruct Hres as [Hres | Hres]; [discriminate | right; exact Hres].
Qed.

Lemma fill_fatigue_lookup (team_ids : list string) (f : gmap string Q)
    (pid : string) :
  foldl (fun f pid => <[pid := default 100 (f !! pid)]> f) f team_ids !! pid
  = if bool_decide (pid ∈ team_ids) then Some (default 100 (f !! pid))
    else f !! pid.
Proof.
  revert f. induction team_ids as [| a team_ids IH]; intros f; [reflexivity |].
  cbn [foldl]. rewrite IH.
  destruct (decide (pid = a)) as [-> | Hne].
  - rewrite lookup_insert_eq. cbn.
    rewrite (bool_decide_eq_true_2 (a ∈ a :: team_ids))
      by apply list_elem_of_here.
    destruct (bool_decide (a ∈ team_ids)); reflexivity.
  - rewrite lookup_insert_ne by congruence.
    destruct (bool_decide_reflect (pid ∈ team_ids)) as [Hin | Hnot].
    + rewrite bool_decide_eq_true_2 by (apply list_elem_of_further, Hin).
      reflexivity.
    + rewrite bool_decide_eq_false_2; [reflexivity |].
      intros Hin. apply elem_of_cons in Hin as [-> | Hin]; contradiction.
Qed.

Lemma initial_valid (all_ids : list string) (game_id : Z) :
  valid_session all_ids (App.initial all_ids game_id).
Proof.
  split; [left; reflexivity |]. cbn. split.
  - intros pid level Hl. apply elem_of_list_to_map_2 in Hl.
    apply list_elem_of_fmap in Hl as (p & [= _ ->] & _). lra.
  - intros pid Hpid. destruct (list_to_map _ !! pid) eqn:E; [eauto |].
    apply not_elem_of_list_to_map in E. exfalso. apply E.
    rewrite <- list_fmap_compose. apply list_elem_of_fmap. eauto.
Qed.

Lemma step_valid (opt : option Gurobi.Solver) (all_ids : list string)
    (s : App.Session) (e : App.Event) :
  (forall solver, opt = Some solver -> Gurobi.contract solver) ->
  NoDup (player_id <$> App.event_team e) ->
  valid_session all_ids s -> valid_session all_ids (App.step opt s e).
Proof.
  intros Hc Hteam Hs. pose proof Hs as (Hl & Hrange & Hkeys).
  destruct e as [team_ids boxes home away slots | now | team_df now now'
                 | team_df now | | team_df |]; cbn in Hteam; cbn [App.step].
  - split; [exact Hl |]. cbn. split.
    + intros pid level. rewrite fill_fatigue_lookup.
      destruct (bool_decide (pid ∈ team_ids)); [| apply Hrange].
      destruct (App.s_fatigue s !! pid) as [l |] eqn:E; cbn; intros [= <-];
        [eapply Hrange; eassumption | lra].
    + intros pid Hpid. rewrite fill_fatigue_lookup.
      destruct (bool_decide (pid ∈ team_ids)); [eauto | apply Hkeys, Hpid].
  - unfold App.start_stint. destruct (App.s_stint_start s); exact Hs.
  - unfold App.end_and_save. destruct (App.elapsed _ _) as [dur |]; [| exact Hs].
    destruct (_ || _); [exact Hs |].
    apply take_valid.
    + apply wrapper_lineup_valid; assumption.
    + split; [exact Hl |]. cbn. split.
      * intros pid level. rewrite update_lookup.
        destruct (App.s_fatigue s !! pid); [| discriminate].
        intros [= <-]. apply new_fatigue_level_of_range.
      * intros pid Hpid. rewrite update_lookup.
        destruct (Hkeys pid Hpid) as [l ->]. cbn. eauto.
  - unfold App.start_game. destruct (App.s_game_start s); [exact Hs |].
    apply take_valid; [apply wrapper_lineup_valid; assumption | exact Hs].
  - exact Hs.
  - unfold App.optimize_click.
    apply take_valid; [apply wrapper_lineup_valid; assumption | exact Hs].
  - split; [left; reflexivity | split; assumption].
Qed.

(** X19: the session stays well formed.  From the state that [reset_all]
    and [ensure_state] set up, after any sequence of widget changes and
    button presses (Start Stint, End + Save, Start Game, Stop Game,
    Optimize, Clear Selection), with a solver that meets the contract and
    teams with unique ids, the session's lineup is empty or has four
    distinct ids, every stored fatigue level lies in [0, 100] and every
    player still has one. *)
Theorem session_stays_valid (opt : option Gurobi.Solver)
    (all_ids : list string) (game_id : Z) (events : list App.Event) :
  (forall solver, opt = Some solver -> Gurobi.contract solver) ->
  Forall (fun e => NoDup (player_id <$> App.event_team e)) events ->
  valid_session all_ids
    (foldl (App.step opt) (App.initial all_ids game_id) events).
Proof.
  intros Hc Hteams.
  pose proof (initial_valid all_ids game_id) as Hs.
  revert Hs. generalize (App.initial all_ids game_id).
  induction Hteams as [| e events He _ IH]; intros s Hs; [exact Hs |].
  cbn [foldl]. apply IH, step_valid; assumption.
Qed.

Lemma session_stays_valid_witness :
  let s := foldl (App.step (Some (Exhaustive.solve false)))
             (App.initial (player_id <$> Sample.roster) 1) Cases.evening in
  App.s_lineup s = ["CAN_1"; "CAN_2"; "CAN_3"; "CAN_4"] /\
  length (App.s_live_stints s) = 1%nat /\
  valid_session (player_id <$> Sample.roster) s.
Proof.
  intros s. split; [vm_compute; reflexivity |].
  split; [vm_compute; reflexivity |].
  apply (session_stays_valid (Some (Exhaustive.solve false))
           (player_id <$> Sample.roster) 1 Cases.evening).
  - intros solver [= <-]. apply ExhaustiveFacts.solve_contract.
  - unfold Cases.evening.
    repeat (apply Forall_cons_2;
            [first [apply sample_ids_distinct | apply NoDup_nil_2] |]).
    apply Forall_nil_2.
Defined.

Lemma remove_dups_distinct (l : list string) : NoDup l -> remove_dups l = l.
Proof.
  induction 1 as [| x l Hx _ IH]; [reflexivity |].
  cbn. destruct (decide_rel elem_of x l); [contradiction |].
  rewrite IH. reflexivity.
Qed.

(** X20: a stint is saved once and timers start once.  "End + Save" does
    nothing without a running stint timer, and pressing it again after any
    press changes nothing more, whatever the clock reads: the stint is not
    logged twice and fatigue is not charged twice.  When it does save, the
    fatigue charged is that of the lineup that played, for the time since
    the timer started, even if the new suggestion replaces the lineup.
    "Start Stint" and "Start Game" leave a running timer alone. *)
Theorem stint_is_saved_once (opt : option Gurobi.Solver)
    (team_df : list Player) (now1 now1' now2 now2' : Q) (s : App.Session) :
  (App.s_stint_start s = None ->
   App.end_and_save opt team_df now1 now1' s = s) /\
  App.end_and_save opt team_df now2 now2'
    (App.end_and_save opt team_df now1 now1' s)
  = App.end_and_save opt team_df now1 now1' s /\
  (forall start,
     App.s_stint_start s = Some start ->
     length (App.s_lineup s) = 4%nat -> NoDup (App.s_lineup s) ->
     let s' := App.end_and_save opt team_df now1 now1' s in
     App.s_fatigue s'
       = update_fatigue_after_stint (App.s_fatigue s) (now1 - start)
           (App.s_lineup s) /\
     App.s_stint_start s' = None /\
     length (App.s_live_stints s') = S (length (App.s_live_stints s))) /\
  App.start_stint now2 (App.start_stint now1 s) = App.start_stint now1 s /\
  App.start_game opt team_df now2 (App.start_game opt team_df now1 s)
  = App.start_game opt team_df now1 s.
Proof.
  split; [| split; [| split; [| split]]].
  - intros Hnone. unfold App.end_and_save. rewrite Hnone. reflexivity.
  - unfold App.end_and_save at 2 3.
    destruct (App.s_stint_start s) as [start |] eqn:Hstart; cbn [App.elapsed].
    + destruct (_ || _) eqn:Hguard.
      * unfold App.end_and_save. rewrite Hstart. cbn [App.elapsed].
        rewrite Hguard. reflexivity.
      * unfold App.end_and_save. reflexivity.
    + unfold App.end_and_save. rewrite Hstart. reflexivity.
  - intros start Hstart Hlen Hnd s'. subst s'. unfold App.end_and_save.
    rewrite Hstart. cbn [App.elapsed].
    rewrite (remove_dups_distinct _ Hnd), Hlen.
    cbn. rewrite length_app. cbn. repeat split. lia.
  - unfold App.start_stint.
    destruct (App.s_stint_start s) eqn:E; [rewrite E |]; reflexivity.
  - unfold App.start_game.
    destruct (App.s_game_start s) eqn:E; [rewrite E |]; reflexivity.
Qed.
